(** * mcp-guard utility scripts: [clean_report.py] and [test-environment/gen_jwt.py]

    A shallow embedding of the two scripts and the proofs of their
    specification.

    Modelling conventions.
    - A Python [str] is a list of characters ([list ascii]).  Characters are
      the code points below 256; on those the regular-expression class [\d]
      is exactly [0-9].
    - A Python [int] is an unbounded integer, [Z]; the interpreter's optional
      limit on the number of digits [int()] and [str()] convert is not
      modelled.
    - A file is the text that [f.read()] returns for it and that
      [f.write()] stores in it. *)

From Stdlib Require Import Ascii String ZArith QArith Lqa.
From stdpp Require Import base tactics option list gmap strings.
From Equations Require Import Equations.

Local Open Scope nat_scope.

Definition str := list ascii.

(** String literals of the source, as character lists. *)
Definition lit (s : string) : str := list_ascii_of_string s.

(** ** Python string primitives *)

Module Py.

(** [s.startswith(p)] *)
Fixpoint startswith (p s : str) : bool :=
  match p, s with
  | [], _ => true
  | _ :: _, [] => false
  | a :: p', b :: s' => Ascii.eqb a b && startswith p' s'
  end.

(** [s.find(sub)]: index of the leftmost occurrence, [None] for Python's -1. *)
Fixpoint find (sub s : str) : option nat :=
  if startswith sub s then Some 0
  else match s with
       | [] => None
       | _ :: s' => S <$> find sub s'
       end.

(** [sub in s] *)
Definition contains (sub s : str) : bool :=
  match find sub s with Some _ => true | None => false end.

(** [sep.join(l)] *)
Fixpoint join (sep : str) (l : list str) : str :=
  match l with
  | [] => []
  | x :: l' => match l' with
               | [] => x
               | _ :: _ => x ++ sep ++ join sep l'
               end
  end.

Lemma startswith_length p s : startswith p s = true → length p ≤ length s.
Proof.
  revert s. induction p as [|a p IH]; intros [|b s]; simpl; try lia; try discriminate.
  intros [_ H]%andb_prop. specialize (IH _ H). lia.
Qed.

Lemma find_bound sub s i : find sub s = Some i → i + length sub ≤ length s.
Proof.
  revert i. induction s as [|b s IH]; intros i.
  - destruct sub; simpl; [|discriminate]. intros [= <-]. simpl. lia.
  - cbn [find]. destruct (startswith sub (b :: s)) eqn:E.
    + intros [= <-]. apply startswith_length in E. lia.
    + destruct (find sub s) as [j|]; simpl; [|discriminate].
      intros [= <-]. specialize (IH _ eq_refl). lia.
Qed.

(** Matching on a computed value while keeping the equation that names it. *)
Definition inspect {A} (a : A) : {b : A | a = b} := exist _ a eq_refl.

(** [s.split(sep)] for a non-empty separator: cut at the leftmost occurrence,
    continue after it.  Python raises [ValueError] on an empty separator; the
    source only ever passes non-empty literals, and the first clause is never
    reached from it. *)
Equations? split (sep s : str) : list str by wf (length s) lt :=
  split [] s := [s];
  split (c :: sep') s with inspect (find (c :: sep') s) := {
    | exist _ None _ => [s];
    | exist _ (Some i) Hi =>
        take i s :: split (c :: sep') (drop (i + S (length sep')) s) }.
Proof.
  apply find_bound in Hi. simpl in Hi. rewrite length_drop. lia.
Qed.

(** [s.replace(old, new)]: every non-overlapping occurrence, left to right.
    With an empty [old], Python inserts [new] before every character and at
    the end. *)
Equations? replace (old new s : str) : str by wf (length s) lt :=
  replace [] new s := new ++ concat (map (λ c, c :: new) s);
  replace (c :: old') new s with inspect (find (c :: old') s) := {
    | exist _ None _ => s;
    | exist _ (Some i) Hi =>
        take i s ++ new ++ replace (c :: old') new (drop (i + S (length old')) s) }.
Proof.
  apply find_bound in Hi. simpl in Hi. rewrite length_drop. lia.
Qed.

End Py.

(** The propositional reading of [sub in s]: [sub] is a contiguous slice. *)
Definition substring (sub s : str) : Prop := ∃ pre post, s = pre ++ sub ++ post.

Definition nl : ascii := "010"%char.

(** ** Integers and their decimal text *)

(** The class [\d] on code points below 256. *)
Definition is_digit (c : ascii) : bool :=
  (48 <=? nat_of_ascii c) && (nat_of_ascii c <=? 57).

Definition digit_value (c : ascii) : Z := (Z.of_nat (nat_of_ascii c) - 48)%Z.

(** [int(s)] on a run of decimal digits (the only strings the scripts convert). *)
Definition int_of_str (s : str) : Z :=
  fold_left (λ acc c, 10 * acc + digit_value c)%Z s 0%Z.

Definition digit_char (d : Z) : ascii := ascii_of_nat (48 + Z.to_nat d).

(** Decimal digits of a non-negative [n], most significant first, pushed in
    front of [acc]; [fuel] bounds the number of digits. *)
Fixpoint digits_of (fuel : nat) (n : Z) (acc : str) : str :=
  match fuel with
  | O => acc
  | S fuel' =>
      let acc' := digit_char (n mod 10) :: acc in
      if (n <? 10)%Z then acc' else digits_of fuel' (n / 10) acc'
  end.

(** [str(z)], also what an f-string field [{z}] produces. *)
Definition str_of_int (z : Z) : str :=
  if (z <? 0)%Z
  then "-"%char :: digits_of (S (Z.to_nat (Z.log2 (- z)))) (- z) []
  else digits_of (S (Z.to_nat (Z.log2 z))) z [].

(** ** clean_report.py *)

Definition SEP : str := nl :: lit "---".
Definition MARKER : str := lit "#### Magic value".
Definition LABEL : str := lit "- **Issues Found:** ".

(** The pattern [r'- \*\*Issues Found:\*\* (\d+)'] tried at the start of [s]:
    the literal label, then the longest non-empty run of digits (group 1). *)
Fixpoint digit_run (s : str) : str :=
  match s with
  | c :: s' => if is_digit c then c :: digit_run s' else []
  | [] => []
  end.

Definition match_here (s : str) : option str :=
  if Py.startswith LABEL s then
    match digit_run (drop (length LABEL) s) with
    | [] => None
    | d :: ds => Some (d :: ds)
    end
  else None.

(** [re.search(pattern, s)]: the leftmost match, as [(match.start(), match.group(1))]. *)
Fixpoint re_search (s : str) : option (nat * str) :=
  match match_here s with
  | Some d => Some (0, d)
  | None => match s with
            | [] => None
            | _ :: s' => (λ m, (S (fst m), snd m)) <$> re_search s'
            end
  end.

(** The [for] loop of [filter_report] (lines 29-37): its two accumulators and
    one iteration. *)
Record loop_state := LoopState { kept_parts : list str; magic_value_count : Z }.

Definition loop_body (st : loop_state) (part : str) : loop_state :=
  if Py.contains MARKER part
  then {| kept_parts := kept_parts st;
          magic_value_count := (magic_value_count st + 1)%Z |}
  else {| kept_parts := kept_parts st ++ [part];
          magic_value_count := magic_value_count st |}.

Definition run_loop (parts : list str) : loop_state :=
  fold_left loop_body parts {| kept_parts := []; magic_value_count := 0%Z |}.

(** Lines 44-48: the summary count. *)
Definition update_summary (new_content : str) (magic_value_count : Z) : str :=
  match re_search new_content with
  | Some (_, digits) =>
      let original_count := int_of_str digits in
      let new_count := (original_count - magic_value_count)%Z in
      Py.replace (LABEL ++ str_of_int original_count)
                 (LABEL ++ str_of_int new_count) new_content
  | None => new_content
  end.

(** The text between [f.read()] and [f.write()]. *)
Definition parts_of (content : str) : list str := Py.split SEP content.

Definition rejoined (content : str) : str :=
  Py.join SEP (kept_parts (run_loop (parts_of content))).

Definition removed_count (content : str) : Z :=
  magic_value_count (run_loop (parts_of content)).

Definition filter_text (content : str) : str * Z :=
  let parts := Py.split SEP content in
  let st := run_loop parts in
  let new_content := Py.join SEP (kept_parts st) in
  let new_content := update_summary new_content (magic_value_count st) in
  (new_content, magic_value_count st).

(** *** Files, standard output and exceptions *)

Inductive exn :=
| FileNotFoundError (path : string)
| PermissionError (path : string)
| SystemExit (code : Z).

Inductive io_event :=
| OpenRead (path : string)
| OpenWrite (path : string).

Record world := World {
  files : gmap string str;      (* readable files and their text *)
  read_only : gset string;      (* paths that cannot be opened for writing *)
  stdout : list str;            (* lines printed so far *)
  io_log : list io_event        (* every attempt to open a file *)
}.

Definition io (A : Type) : Type := world → world * (exn + A).

#[global] Instance io_ret : MRet io := λ A (a : A) w, (w, inr a).
#[global] Instance io_bind : MBind io := λ A B (k : A → io B) (m : io A) w,
  match m w with
  | (w', inr a) => k a w'
  | (w', inl e) => (w', inl e)
  end.

Definition raise {A} (e : exn) : io A := λ w, (w, inl e).

Definition log_event (ev : io_event) (w : world) : world :=
  {| files := files w; read_only := read_only w; stdout := stdout w;
     io_log := io_log w ++ [ev] |}.

(** [with open(path, 'r') as f: f.read()] *)
Definition read_file (path : string) : io str := λ w,
  let w' := log_event (OpenRead path) w in
  match files w !! path with
  | Some content => (w', inr content)
  | None => (w', inl (FileNotFoundError path))
  end.

(** [with open(path, 'w') as f: f.write(data)] *)
Definition write_file (path : string) (data : str) : io unit := λ w,
  let w' := log_event (OpenWrite path) w in
  if decide (path ∈ read_only w) then (w', inl (PermissionError path))
  else ({| files := <[path := data]> (files w'); read_only := read_only w';
           stdout := stdout w'; io_log := io_log w' |}, inr ()).

Definition print (line : str) : io unit := λ w,
  ({| files := files w; read_only := read_only w;
      stdout := stdout w ++ [line]; io_log := io_log w |}, inr ()).

Definition sys_exit {A} (code : Z) : io A := raise (SystemExit code).

(** The line [f"Removed {magic_value_count} magic value issues."] *)
Definition REMOVED_LINE (n : Z) : str :=
  lit "Removed " ++ str_of_int n ++ lit " magic value issues.".

Definition filter_report (input_path output_path : string) : io unit :=
  content ← read_file input_path;
  let parts := Py.split SEP content in
  let st := run_loop parts in
  let new_content := Py.join SEP (kept_parts st) in
  let new_content := update_summary new_content (magic_value_count st) in
  print (REMOVED_LINE (magic_value_count st));;
  write_file output_path new_content.

Definition USAGE : str := lit "Usage: python clean_report.py <input> <output>".

(** The [__main__] block; [argv] is [sys.argv], script name first. *)
Definition main (argv : list string) : io unit :=
  if length argv <? 3
  then print USAGE;; sys_exit 1
  else filter_report (nth 1 argv EmptyString) (nth 2 argv EmptyString).

(** Exit status of the interpreter: 0 on normal completion, the argument of
    [sys.exit], 1 for any other uncaught exception. *)
Definition exit_status {A} (r : exn + A) : Z :=
  match r with
  | inr _ => 0
  | inl (SystemExit code) => code
  | inl _ => 1
  end%Z.

Definition run_main (argv : list string) (w : world) : world * Z :=
  let (w', r) := main argv w in (w', exit_status r).

(** ** test-environment/gen_jwt.py *)

(** A Python [bytes] object: a list of octets. *)
Definition bytes := list ascii.

(** [s.encode()]: UTF-8, for code points below 256. *)
Definition utf8_char (c : ascii) : bytes :=
  let n := N_of_ascii c in
  if (n <? 128)%N then [c]
  else [ascii_of_N (192 + n / 64); ascii_of_N (128 + n mod 64)].

Definition str_encode (s : str) : bytes := concat (map utf8_char s).

(** [b.decode()] on ASCII octets, the only ones the script decodes. *)
Definition bytes_decode (b : bytes) : str := b.

(** [s.rstrip(c)] for a single character [c]. *)
Fixpoint rstrip (c : ascii) (s : str) : str :=
  match s with
  | [] => []
  | a :: s' =>
      match rstrip c s' with
      | [] => if Ascii.eqb a c then [] else [a]
      | b :: r => a :: b :: r
      end
  end.

(** [base64.urlsafe_b64encode] (RFC 4648, section 5): three octets make a
    24-bit number, cut in four 6-bit indices into the alphabet; a final group
    of one or two octets is padded with [=]. *)
Definition B64URL_ALPHABET : str :=
  lit "ABCDEFGHIJKLMNOPQRSTUVWXYZabcdefghijklmnopqrstuvwxyz0123456789-_".

Definition b64_char (i : N) : ascii := nth (N.to_nat i) B64URL_ALPHABET "="%char.

Fixpoint urlsafe_b64encode (data : bytes) : bytes :=
  match data with
  | [] => []
  | [a] =>
      let n := (N_of_ascii a * 65536)%N in
      [b64_char (n / 262144); b64_char (n / 4096 mod 64); "="; "="]%char%N
  | [a; b] =>
      let n := (N_of_ascii a * 65536 + N_of_ascii b * 256)%N in
      [b64_char (n / 262144); b64_char (n / 4096 mod 64);
       b64_char (n / 64 mod 64); "="]%char%N
  | a :: b :: c :: rest =>
      let n := (N_of_ascii a * 65536 + N_of_ascii b * 256 + N_of_ascii c)%N in
      [b64_char (n / 262144); b64_char (n / 4096 mod 64);
       b64_char (n / 64 mod 64); b64_char (n mod 64)]%N
      ++ urlsafe_b64encode rest
  end.

Definition b64url (data : bytes) : str :=
  bytes_decode (rstrip "=" (urlsafe_b64encode data)).

(** [json.dumps] with its defaults, for the dictionaries of the script: string
    keys, string or integer values, insertion order, separators [", "] and
    [": "], non-printable and non-ASCII characters escaped. *)
Inductive jvalue :=
| JStr (s : str)
| JInt (z : Z).

Definition hex_digit (n : N) : ascii :=
  nth (N.to_nat n) (lit "0123456789abcdef") "0"%char.

Definition dq : ascii := "034"%char.

Definition json_escape (c : ascii) : str :=
  if Ascii.eqb c dq then ["\"%char; dq]
  else if Ascii.eqb c "\" then lit "\\"
  else if Ascii.eqb c "010" then lit "\n"
  else if Ascii.eqb c "013" then lit "\r"
  else if Ascii.eqb c "009" then lit "\t"
  else if Ascii.eqb c "008" then lit "\b"
  else if Ascii.eqb c "012" then lit "\f"
  else let n := N_of_ascii c in
       if ((32 <=? n) && (n <=? 126))%N then [c]
       else lit "\u00" ++ [hex_digit (n / 16); hex_digit (n mod 16)].

Definition json_string (s : str) : str :=
  dq :: concat (map json_escape s) ++ [dq].

Definition json_value (v : jvalue) : str :=
  match v with
  | JStr s => json_string s
  | JInt z => str_of_int z
  end.

Definition json_item (kv : str * jvalue) : str :=
  json_string (fst kv) ++ lit ": " ++ json_value (snd kv).

Definition json_dumps (d : list (str * jvalue)) : str :=
  "{"%char :: Py.join (lit ", ") (map json_item d) ++ ["}"%char].

(** [int(x)] on a float: truncation toward zero.  The clock reading is taken
    as a rational number (every finite float is one). *)
Definition int_of_float (x : Q) : Z := Z.quot (Qnum x) (Z.pos (Qden x)).

Section gen_jwt.

(** [hmac.new(key, msg, hashlib.sha256).digest()], from Python's library. *)
Variable hmac_sha256 : bytes → bytes → bytes.

Definition header : str :=
  b64url (str_encode (json_dumps [(lit "alg", JStr (lit "HS256"));
                              (lit "typ", JStr (lit "JWT"))])).

Definition claims (now : Q) : list (str * jvalue) :=
  [(lit "sub", JStr (lit "jwt-user-123"));
   (lit "scope", JStr (lit "read:files"));
   (lit "iss", JStr (lit "https://test.mcp-guard.io"));
   (lit "aud", JStr (lit "mcp-guard"));
   (lit "exp", JInt (int_of_float now + 3600))].

Definition payload (now : Q) : str := b64url (str_encode (json_dumps (claims now))).

Definition secret : str := lit "mcp-guard-test-secret-key-32-chars!!".

Definition signature (now : Q) : str :=
  b64url (hmac_sha256 (str_encode secret)
            (str_encode (header ++ "."%char :: payload now))).

(** The printed token; [now] is the value of [time.time()]. *)
Definition gen_jwt (now : Q) : str :=
  header ++ "."%char :: payload now ++ "."%char :: signature now.

End gen_jwt.

(** ** Reading a token back

    What a consumer of the token does with its second segment: base64url
    decoding without padding (RFC 4648) and JSON parsing (RFC 8259, for
    objects of strings and integers).  These are not part of the script. *)

Fixpoint index_of (c : ascii) (l : str) : option N :=
  match l with
  | [] => None
  | a :: l' => if Ascii.eqb a c then Some 0%N else N.succ <$> index_of c l'
  end.

Definition b64_index (c : ascii) : option N := index_of c B64URL_ALPHABET.

Fixpoint b64url_decode (s : str) : option bytes :=
  match s with
  | [] => Some []
  | [_] => None
  | [c1; c2] =>
      i1 ← b64_index c1; i2 ← b64_index c2;
      Some [ascii_of_N ((i1 * 64 + i2) / 16)]
  | [c1; c2; c3] =>
      i1 ← b64_index c1; i2 ← b64_index c2; i3 ← b64_index c3;
      let m := (i1 * 4096 + i2 * 64 + i3)%N in
      Some [ascii_of_N (m / 1024); ascii_of_N (m / 4 mod 256)]
  | c1 :: c2 :: c3 :: c4 :: rest =>
      i1 ← b64_index c1; i2 ← b64_index c2; i3 ← b64_index c3;
      i4 ← b64_index c4;
      let m := (i1 * 262144 + i2 * 4096 + i3 * 64 + i4)%N in
      r ← b64url_decode rest;
      Some (ascii_of_N (m / 65536) :: ascii_of_N (m / 256 mod 256)
              :: ascii_of_N (m mod 256) :: r)
  end.

(** JSON text, read as ASCII. *)
Definition is_ascii (c : ascii) : bool := (N_of_ascii c <? 128)%N.

Definition ascii_text (b : bytes) : option str :=
  if forallb is_ascii b then Some b else None.

Definition is_ws (c : ascii) : bool :=
  Ascii.eqb c " " || Ascii.eqb c "009" || Ascii.eqb c "010" || Ascii.eqb c "013".

Fixpoint skip_ws (s : str) : str :=
  match s with
  | c :: s' => if is_ws c then skip_ws s' else s
  | [] => []
  end.

Definition hex_value (c : ascii) : option N :=
  index_of c (lit "0123456789abcdef").

Definition unescape (e : ascii) : option ascii :=
  if Ascii.eqb e dq then Some dq
  else if Ascii.eqb e "\" then Some "\"%char
  else if Ascii.eqb e "/" then Some "/"%char
  else if Ascii.eqb e "n" then Some "010"%char
  else if Ascii.eqb e "r" then Some "013"%char
  else if Ascii.eqb e "t" then Some "009"%char
  else if Ascii.eqb e "b" then Some "008"%char
  else if Ascii.eqb e "f" then Some "012"%char
  else None.

(** The characters of a string after its opening quote, up to the closing one:
    the string read so far (reversed) is [acc]; the result is the string and
    the text after the closing quote.  Escapes [\uXXXX] are read for code
    points below 256. *)
Fixpoint parse_string_body (s acc : str) : option (str * str) :=
  match s with
  | [] => None
  | c :: s' =>
      if Ascii.eqb c dq then Some (rev acc, s')
      else if Ascii.eqb c "\" then
        match s' with
        | [] => None
        | e :: s'' =>
            if Ascii.eqb e "u" then
              match s'' with
              | h1 :: h2 :: h3 :: h4 :: s5 =>
                  if Ascii.eqb h1 "0" && Ascii.eqb h2 "0" then
                    match hex_value h3, hex_value h4 with
                    | Some a, Some b =>
                        parse_string_body s5 (ascii_of_N (16 * a + b) :: acc)
                    | _, _ => None
                    end
                  else None
              | _ => None
              end
            else match unescape e with
                 | Some c' => parse_string_body s'' (c' :: acc)
                 | None => None
                 end
        end
      else parse_string_body s' (c :: acc)
  end.

Definition parse_digits (s : str) : option (Z * str) :=
  match digit_run s with
  | [] => None
  | d :: ds => Some (int_of_str (d :: ds), drop (length (d :: ds)) s)
  end.

Definition parse_number (s : str) : option (Z * str) :=
  match s with
  | c :: s' =>
      if Ascii.eqb c "-"
      then (λ r, (- fst r, snd r)%Z) <$> parse_digits s'
      else parse_digits s
  | [] => None
  end.

Definition parse_value (s : str) : option (jvalue * str) :=
  match s with
  | c :: s' =>
      if Ascii.eqb c dq
      then (λ r, (JStr (fst r), snd r)) <$> parse_string_body s' []
      else (λ r, (JInt (fst r), snd r)) <$> parse_number s
  | [] => None
  end.

(** The members of an object after its opening brace, up to the end of the
    text; [fuel] bounds their number. *)
Fixpoint parse_members (fuel : nat) (s : str) : option (list (str * jvalue)) :=
  match fuel with
  | O => None
  | S fuel' =>
      match skip_ws s with
      | c :: s1 =>
          if Ascii.eqb c dq then
            ks ← parse_string_body s1 [];
            match skip_ws (snd ks) with
            | c2 :: s3 =>
                if Ascii.eqb c2 ":" then
                  vs ← parse_value (skip_ws s3);
                  match skip_ws (snd vs) with
                  | c3 :: s5 =>
                      if Ascii.eqb c3 "," then
                        rest ← parse_members fuel' s5;
                        Some ((fst ks, fst vs) :: rest)
                      else if Ascii.eqb c3 "}" then
                        match skip_ws s5 with
                        | [] => Some [(fst ks, fst vs)]
                        | _ :: _ => None
                        end
                      else None
                  | [] => None
                  end
                else None
            | [] => None
            end
          else None
      | [] => None
      end
  end.

(** [json.loads] for an object of strings and integers. *)
Definition json_loads (s : str) : option (list (str * jvalue)) :=
  match skip_ws s with
  | c :: s1 =>
      if Ascii.eqb c "{" then
        match skip_ws s1 with
        | c1 :: s2 =>
            if Ascii.eqb c1 "}" then
              match skip_ws s2 with [] => Some [] | _ :: _ => None end
            else parse_members (length s1) s1
        | [] => None
        end
      else None
  | [] => None
  end.

(** [obj[key]] *)
Fixpoint json_get (key : str) (obj : list (str * jvalue)) : option jvalue :=
  match obj with
  | [] => None
  | (k, v) :: obj' =>
      if bool_decide (k = key) then Some v else json_get key obj'
  end.

(** The second dot-separated segment of a token, decoded. *)
Definition decode_payload (token : str) : option (list (str * jvalue)) :=
  segment ← Py.split (lit ".") token !! 1;
  octets ← b64url_decode segment;
  text ← ascii_text octets;
  json_loads text.

(** Any dot-separated segment of a token, decoded like the payload. *)
Definition decode_segment (k : nat) (token : str) : option (list (str * jvalue)) :=
  segment ← Py.split (lit ".") token !! k;
  octets ← b64url_decode segment;
  text ← ascii_text octets;
  json_loads text.

(** As the specification words it: only the first literal occurrence of the
    old line is replaced. *)
Definition replace_first (old new s : str) : str :=
  match Py.find old s with
  | Some i => take i s ++ new ++ drop (i + length old) s
  | None => s
  end.

Definition update_summary_first_only (new_content : str) (removed : Z) : str :=
  match re_search new_content with
  | Some (_, digits) =>
      let original_count := int_of_str digits in
      replace_first (LABEL ++ str_of_int original_count)
                    (LABEL ++ str_of_int (original_count - removed)) new_content
  | None => new_content
  end.

(** ** Sample reports *)

(** Scenario A of the specification. *)
Definition scenario_A : str :=
  lit "Header" ++ nl :: lit "- **Issues Found:** 3" ++ nl :: lit "---" ++ nl
    :: lit "#### Magic value" ++ nl :: lit "foo" ++ nl :: lit "---" ++ nl
    :: lit "OK block".

Definition unmarked_report : str :=
  lit "Header" ++ nl :: lit "- **Issues Found:** 3" ++ nl :: lit "---" ++ nl
    :: lit "#### Unused import" ++ nl :: lit "---" ++ nl :: lit "OK block".

Definition no_summary_report : str :=
  lit "Header" ++ nl :: lit "---" ++ nl :: lit "#### Magic value" ++ nl
    :: lit "---" ++ nl :: lit "OK block".

Definition leading_zero_report : str :=
  lit "- **Issues Found:** 03" ++ nl :: lit "---#### Magic value".

Definition two_summaries_report : str :=
  lit "- **Issues Found:** 2" ++ nl :: lit "- **Issues Found:** 2" ++ nl
    :: lit "---#### Magic value".

Definition marked_header_report : str :=
  lit "#### Magic value summary" ++ nl :: lit "- **Issues Found:** 3" ++ nl
    :: lit "---" ++ nl :: lit "OK block".

(** A file system holding one report, with every path writable. *)
Definition world_of (content : str) : world :=
  {| files := {[ "report.md"%string := content ]}; read_only := ∅;
     stdout := []; io_log := [] |}.

Definition sample_world : world := world_of scenario_A.

Definition all_marked_report : str :=
  lit "#### Magic value A" ++ SEP ++ lit "#### Magic value B".

Definition zero_count_report : str :=
  lit "- **Issues Found:** 0" ++ SEP ++ lit "#### Magic value".

(** The same file system with the output path not writable. *)
Definition locked_world : world :=
  {| files := {[ "report.md"%string := scenario_A ]};
     read_only := {[ "out.md"%string ]}; stdout := []; io_log := [] |}.

(** ** The embedding on sample inputs *)

Example split_ex :
  Py.split SEP (lit "a" ++ SEP ++ lit "b" ++ SEP) = [lit "a"; lit "b"; []].
Proof. reflexivity. Qed.

Example replace_ex : Py.replace (lit "ab") (lit "x") (lit "cababdab") = lit "cxxdx".
Proof. reflexivity. Qed.

Example replace_empty_ex : Py.replace [] (lit "-") (lit "abc") = lit "-a-b-c-".
Proof. reflexivity. Qed.

Example scenario_A_result :
  filter_text scenario_A =
  (lit "Header" ++ nl :: lit "- **Issues Found:** 2" ++ nl :: lit "---" ++ nl
     :: lit "OK block", 1%Z).
Proof. vm_compute. reflexivity. Qed.

Example header_ex : header = lit "eyJhbGciOiAiSFMyNTYiLCAidHlwIjogIkpXVCJ9".
Proof. vm_compute. reflexivity. Qed.

Example payload_ex :
  payload 1700000000
  = lit "eyJzdWIiOiAiand0LXVzZXItMTIzIiwgInNjb3BlIjogInJlYWQ6ZmlsZXMiLCAiaXNzIjogImh0dHBzOi8vdGVzdC5tY3AtZ3VhcmQuaW8iLCAiYXVkIjogIm1jcC1ndWFyZCIsICJleHAiOiAxNzAwMDAzNjAwfQ".
Proof. vm_compute. reflexivity. Qed.

Example json_escape_ex :
  json_dumps [(lit "a", JStr (lit "x" ++ dq :: lit "y\z"
                                ++ [nl; "127"; "233"; "001"]%char))]
  = lit "{" ++ dq :: lit "a" ++ dq :: lit ": " ++ dq :: lit "x\" ++ dq
      :: lit "y\\z\n\u007f\u00e9\u0001" ++ dq :: lit "}".
Proof. vm_compute. reflexivity. Qed.

Example decode_payload_ex :
  decode_payload (lit "eyJhbGciOiAiSFMyNTYiLCAidHlwIjogIkpXVCJ9.eyJzdWIiOiAiand0LXVzZXItMTIzIiwgInNjb3BlIjogInJlYWQ6ZmlsZXMiLCAiaXNzIjogImh0dHBzOi8vdGVzdC5tY3AtZ3VhcmQuaW8iLCAiYXVkIjogIm1jcC1ndWFyZCIsICJleHAiOiAxNzAwMDAzNjAwfQ.c2ln")
  = Some [(lit "sub", JStr (lit "jwt-user-123"));
          (lit "scope", JStr (lit "read:files"));
          (lit "iss", JStr (lit "https://test.mcp-guard.io"));
          (lit "aud", JStr (lit "mcp-guard"));
          (lit "exp", JInt 1700003600)].
Proof. vm_compute. reflexivity. Qed.

Example zero_count_output :
  fst (filter_text zero_count_report) = lit "- **Issues Found:** -1".
Proof. vm_compute. reflexivity. Qed.

(** * Facts about the string primitives *)

Section string_facts.
Implicit Types (m p s t : str) (c : ascii).

Lemma startswith_prefix p s : Py.startswith p s = true ↔ ∃ t, s = p ++ t.
Proof.
  revert s. induction p as [|a p IH]; intros s; simpl.
  - split; eauto.
  - destruct s as [|b s].
    + split; [discriminate|]. intros [t [=]].
    + rewrite andb_true_iff, Ascii.eqb_eq, IH. split.
      * intros [-> [t ->]]. eauto.
      * intros [t [= -> ->]]. eauto.
Qed.

Lemma startswith_app p t : Py.startswith p (p ++ t) = true.
Proof. apply startswith_prefix. eauto. Qed.

Lemma startswith_nil_r p : Py.startswith p [] = true → p = [].
Proof. destruct p; [done|discriminate]. Qed.

(** A pattern split in two matches when both halves match in turn. *)
Lemma startswith_app_l p1 p2 s :
  Py.startswith (p1 ++ p2) s
  = Py.startswith p1 s && Py.startswith p2 (drop (length p1) s).
Proof.
  revert s. induction p1 as [|a p1 IH]; intros s; simpl.
  - by rewrite drop_0.
  - destruct s as [|b s]; [done|]. simpl. by rewrite IH, andb_assoc.
Qed.

(** Characterisation of [find]: the index of the first position at which the
    pattern matches. *)
Lemma find_Some_iff m s i :
  Py.find m s = Some i ↔
  i ≤ length s ∧ Py.startswith m (drop i s) = true
  ∧ ∀ j, j < i → Py.startswith m (drop j s) = false.
Proof.
  revert i. induction s as [|b s IH]; intros i.
  - simpl. destruct (Py.startswith m []) eqn:E.
    + split.
      * intros [= <-]. rewrite drop_0. repeat split; [lia|done|lia].
      * intros (Hi & _ & _). simpl in Hi. f_equal. lia.
    + split; [discriminate|]. intros (_ & H & _).
      rewrite drop_nil in H. congruence.
  - cbn [Py.find]. destruct (Py.startswith m (b :: s)) eqn:E.
    + split.
      * intros [= <-]. rewrite drop_0. repeat split; [simpl; lia|done|lia].
      * intros (_ & _ & Hmin). destruct i as [|i]; [done|].
        specialize (Hmin 0 ltac:(lia)). rewrite drop_0 in Hmin. congruence.
    + destruct i as [|i].
      * split.
        -- destruct (Py.find m s); discriminate.
        -- intros (_ & H & _). rewrite drop_0 in H. congruence.
      * specialize (IH i). destruct (Py.find m s) as [k|]; simpl.
        -- split.
           ++ intros [= ->]. destruct IH as [IH _].
              destruct (IH eq_refl) as (H1 & H2 & H3).
              repeat split; [lia|done|].
              intros [|j] Hj; [by rewrite drop_0|]. simpl. apply H3. lia.
           ++ intros (H1 & H2 & H3). f_equal. f_equal.
              destruct IH as [_ IH]. simpl in H2.
              assert (Some k = Some i) as [= ->]; [|done].
              apply IH. repeat split; [lia|done|].
              intros j Hj. apply (H3 (S j)). lia.
        -- split; [discriminate|]. intros (H1 & H2 & H3).
           destruct IH as [_ IH]. simpl in H2.
           assert (None = Some i) as [=].
           apply IH. repeat split; [lia|done|].
           intros j Hj. apply (H3 (S j)). lia.
Qed.

Lemma find_None_iff m s :
  Py.find m s = None ↔ ∀ j, Py.startswith m (drop j s) = false.
Proof.
  induction s as [|b s IH].
  - simpl. destruct (Py.startswith m []) eqn:E.
    + split; [discriminate|]. intros H. specialize (H 0). simpl in H. congruence.
    + split; [|done]. intros _ j. by rewrite drop_nil.
  - cbn [Py.find]. destruct (Py.startswith m (b :: s)) eqn:E.
    + split; [discriminate|]. intros H. specialize (H 0). rewrite drop_0 in H.
      congruence.
    + destruct (Py.find m s) as [k|]; simpl.
      * split; [discriminate|]. intros H. destruct IH as [_ IH].
        discriminate IH. intros j. apply (H (S j)).
      * split; [|done]. intros _ [|j]; [by rewrite drop_0|]. simpl.
        by apply IH.
Qed.

Lemma contains_substring m s : Py.contains m s = true ↔ substring m s.
Proof.
  unfold Py.contains, substring. split.
  - destruct (Py.find m s) as [i|] eqn:E; [|discriminate]. intros _.
    apply find_Some_iff in E as (_ & [t Ht]%startswith_prefix & _).
    exists (take i s), t. by rewrite <- Ht, take_drop.
  - intros (pre & post & ->).
    destruct (Py.find m (pre ++ m ++ post)) eqn:E; [done|].
    rewrite find_None_iff in E. specialize (E (length pre)).
    rewrite drop_app_length, startswith_app in E. discriminate.
Qed.

Lemma not_contains_substring m s : Py.contains m s = false ↔ ¬ substring m s.
Proof. rewrite <- contains_substring. by destruct (Py.contains m s). Qed.

Lemma contains_find_None m s : Py.contains m s = false ↔ Py.find m s = None.
Proof. unfold Py.contains. destruct (Py.find m s); split; congruence. Qed.

Lemma substring_trans m s t : substring m s → substring s t → substring m t.
Proof.
  intros (a & b & ->) (c & d & ->). exists (c ++ a), (b ++ d).
  by rewrite <- !(assoc_L (++)).
Qed.

Lemma substring_refl s : substring s s.
Proof. exists [], []. by rewrite app_nil_r. Qed.

Lemma substring_app_l m s t : substring m s → substring m (s ++ t).
Proof.
  intros H. eapply substring_trans; [done|]. exists [], t. done.
Qed.

Lemma substring_app_r m s t : substring m t → substring m (s ++ t).
Proof.
  intros H. eapply substring_trans; [done|]. exists s, []. by rewrite app_nil_r.
Qed.

End string_facts.

Section split_replace_facts.
Implicit Types (m p s t sep old new : str) (c : ascii).

Lemma str_length_ind (P : str → Prop) :
  (∀ s, (∀ t, length t < length s → P t) → P s) → ∀ s, P s.
Proof.
  intros H s. remember (length s) as n eqn:Hn. revert s Hn.
  induction (lt_wf n) as [n _ IH]. intros s ->. apply H.
  intros t Ht. by apply (IH (length t)).
Qed.

Lemma split_unfold c sep' s :
  Py.split (c :: sep') s =
  match Py.find (c :: sep') s with
  | None => [s]
  | Some i => take i s :: Py.split (c :: sep') (drop (i + S (length sep')) s)
  end.
Proof.
  simp split. generalize (Py.inspect (Py.find (c :: sep') s)).
  intros [[i|] H]; simpl; by rewrite H.
Qed.

Lemma replace_unfold c old' new s :
  Py.replace (c :: old') new s =
  match Py.find (c :: old') s with
  | None => s
  | Some i =>
      take i s ++ new ++ Py.replace (c :: old') new (drop (i + S (length old')) s)
  end.
Proof.
  simp replace. generalize (Py.inspect (Py.find (c :: old') s)).
  intros [[i|] H]; simpl; by rewrite H.
Qed.

(** The text around the occurrence that [find] reports. *)
Lemma find_Some_cut m s i :
  Py.find m s = Some i → s = take i s ++ m ++ drop (i + length m) s.
Proof.
  intros (_ & [t Ht]%startswith_prefix & _)%find_Some_iff.
  rewrite <- (take_drop i s) at 1. f_equal. rewrite Ht. f_equal.
  rewrite <- drop_drop, Ht. by rewrite drop_app_length.
Qed.

Lemma find_Some_shorter c m' s i :
  Py.find (c :: m') s = Some i → length (drop (i + S (length m')) s) < length s.
Proof. intros H%Py.find_bound. simpl in H. rewrite length_drop. lia. Qed.

Lemma split_nonempty sep s : Py.split sep s ≠ [].
Proof.
  destruct sep as [|c sep']; [by simp split|].
  rewrite split_unfold. by destruct (Py.find _ _).
Qed.

Lemma join_cons sep x l :
  l ≠ [] → Py.join sep (x :: l) = x ++ sep ++ Py.join sep l.
Proof. by destruct l. Qed.

(** Joining the pieces with the separator gives the text back. *)
Lemma join_split sep s : Py.join sep (Py.split sep s) = s.
Proof.
  destruct sep as [|c sep']; [by simp split|].
  induction s as [s IH] using str_length_ind.
  rewrite split_unfold. destruct (Py.find (c :: sep') s) as [i|] eqn:E; [|done].
  rewrite join_cons by apply split_nonempty.
  rewrite IH by eauto using find_Some_shorter.
  symmetry. by apply find_Some_cut in E.
Qed.

Lemma split_substring sep s p : p ∈ Py.split sep s → substring p s.
Proof.
  destruct sep as [|c sep'].
  { simp split. intros ->%list_elem_of_singleton. apply substring_refl. }
  induction s as [s IH] using str_length_ind.
  rewrite split_unfold. destruct (Py.find (c :: sep') s) as [i|] eqn:E.
  - intros [->|H]%elem_of_cons.
    + exists [], (drop i s). by rewrite take_drop.
    + apply IH in H; [|eauto using find_Some_shorter].
      eapply substring_trans; [done|].
      exists (take (i + S (length sep')) s), []. by rewrite app_nil_r, take_drop.
  - intros ->%list_elem_of_singleton. apply substring_refl.
Qed.

(** No piece contains the separator. *)
Lemma find_take_None m s i : m ≠ [] → Py.find m s = Some i → Py.find m (take i s) = None.
Proof.
  intros Hm (Hi & _ & Hmin)%find_Some_iff. apply find_None_iff. intros j.
  destruct (Py.startswith m (drop j (take i s))) eqn:E; [|done].
  assert (j < i) as Hj.
  { apply Py.startswith_length in E. rewrite length_drop, length_take in E.
    destruct m; [done|]. simpl in E. lia. }
  apply startswith_prefix in E as [t Ht].
  rewrite <- (Hmin j Hj). symmetry. apply startswith_prefix.
  exists (t ++ drop i s). rewrite <- (take_drop i s) at 1.
  rewrite drop_app_le by (rewrite length_take; lia). rewrite Ht.
  by rewrite <- !(assoc_L (++)).
Qed.

Lemma split_no_sep sep s p :
  sep ≠ [] → p ∈ Py.split sep s → Py.find sep p = None.
Proof.
  destruct sep as [|c sep']; [done|]. intros _.
  induction s as [s IH] using str_length_ind.
  rewrite split_unfold. destruct (Py.find (c :: sep') s) as [i|] eqn:E.
  - intros [->|H]%elem_of_cons; [by apply find_take_None|].
    apply IH in H; eauto using find_Some_shorter.
  - by intros ->%list_elem_of_singleton.
Qed.

(** Replacing a string by itself changes nothing. *)
Lemma replace_same old s : Py.replace old old s = s.
Proof.
  destruct old as [|c old'].
  { simp replace. simpl. induction s as [|a s IH]; [done|]. simpl. by f_equal. }
  induction s as [s IH] using str_length_ind.
  rewrite replace_unfold. destruct (Py.find (c :: old') s) as [i|] eqn:E; [|done].
  rewrite IH by eauto using find_Some_shorter.
  symmetry. by apply find_Some_cut in E.
Qed.

(** [s.replace(old, new)] is [new.join(s.split(old))]. *)
Lemma replace_join_split old new s :
  old ≠ [] → Py.replace old new s = Py.join new (Py.split old s).
Proof.
  destruct old as [|c old']; [done|]. intros _.
  induction s as [s IH] using str_length_ind.
  rewrite replace_unfold, split_unfold.
  destruct (Py.find (c :: old') s) as [i|] eqn:E; [|done].
  rewrite join_cons by apply split_nonempty.
  by rewrite IH by eauto using find_Some_shorter.
Qed.

(** A character that does not occur in the pattern cuts the search in two. *)
Lemma startswith_app_notin m x c y :
  c ∉ m → Py.startswith m (x ++ c :: y) = Py.startswith m x.
Proof.
  revert x. induction m as [|a m IH]; intros x Hc; [done|].
  apply not_elem_of_cons in Hc as [Hca Hc].
  destruct x as [|b x]; simpl.
  - destruct (Ascii.eqb_spec a c); [congruence|done].
  - by rewrite IH.
Qed.

Lemma find_app_notin m x c y :
  m ≠ [] → c ∉ m →
  Py.find m (x ++ c :: y) = None ↔ Py.find m x = None ∧ Py.find m y = None.
Proof.
  intros Hm Hc. induction x as [|b x IH].
  - cbn [app Py.find]. rewrite <- (app_nil_l (c :: y)) at 1.
    rewrite startswith_app_notin by done.
    destruct m as [|a m]; [done|]. cbn [Py.startswith].
    destruct (Py.find (a :: m) y); simpl; split; try done. by intros [_ ?].
  - cbn [app Py.find]. rewrite (app_comm_cons x (c :: y) b).
    rewrite startswith_app_notin by done.
    destruct (Py.startswith m (b :: x)).
    { split; [done|]. by intros [? _]. }
    destruct (Py.find m (x ++ c :: y)), (Py.find m x); simpl;
      intuition congruence.
Qed.

End split_replace_facts.

Section more_string_facts.
Implicit Types (m p s t sep old new : str) (c : ascii).

Lemma find_nil_None m : m ≠ [] → Py.find m [] = None.
Proof. by destruct m. Qed.

Lemma find_None_substring m s t :
  Py.find m s = None → substring t s → Py.find m t = None.
Proof.
  rewrite <- !contains_find_None, !not_contains_substring.
  intros H Ht Hm. apply H. by eapply substring_trans.
Qed.

(** A run of characters foreign to the pattern cuts the search in two. *)
Lemma find_app_foreign m x ds y :
  m ≠ [] → ds ≠ [] → Forall (λ c, c ∉ m) ds →
  Py.find m (x ++ ds ++ y) = None ↔ Py.find m x = None ∧ Py.find m y = None.
Proof.
  intros Hm Hds Hall. revert x. induction Hall as [|d ds Hd Hall IH]; [done|].
  intros x. cbn [app]. rewrite find_app_notin by done.
  destruct ds as [|d' ds']; [done|].
  rewrite (IH ltac:(done) []). cbn [app].
  rewrite find_nil_None by done. tauto.
Qed.

Lemma replace_keeps_free m c old' new s :
  (∀ x y, Py.find m x = None → Py.find m y = None →
          Py.find m (x ++ new ++ y) = None) →
  Py.find m s = None → Py.find m (Py.replace (c :: old') new s) = None.
Proof.
  intros Hglue. induction s as [s IH] using str_length_ind. intros Hs.
  rewrite replace_unfold. destruct (Py.find (c :: old') s) as [i|] eqn:E; [|done].
  apply Hglue.
  - eapply find_None_substring; [done|]. exists [], (drop i s).
    by rewrite take_drop.
  - apply IH; [eauto using find_Some_shorter|].
    eapply find_None_substring; [done|].
    exists (take (i + S (length old')) s), []. by rewrite app_nil_r, take_drop.
Qed.

End more_string_facts.

(** * Facts about decimal text *)

Section decimal_facts.
Local Open Scope Z_scope.

Lemma is_digit_digit_char d : 0 ≤ d < 10 → is_digit (digit_char d) = true.
Proof.
  intros Hd. assert (d = 0 ∨ d = 1 ∨ d = 2 ∨ d = 3 ∨ d = 4 ∨ d = 5 ∨ d = 6
                     ∨ d = 7 ∨ d = 8 ∨ d = 9) as Hc by lia.
  repeat (destruct Hc as [->|Hc]; [done|]). by subst.
Qed.

Lemma digit_value_digit_char d : 0 ≤ d < 10 → digit_value (digit_char d) = d.
Proof.
  intros Hd. assert (d = 0 ∨ d = 1 ∨ d = 2 ∨ d = 3 ∨ d = 4 ∨ d = 5 ∨ d = 6
                     ∨ d = 7 ∨ d = 8 ∨ d = 9) as Hc by lia.
  repeat (destruct Hc as [->|Hc]; [done|]). by subst.
Qed.

Lemma digits_of_all_digits fuel n acc :
  Forall (λ c, is_digit c = true) acc →
  Forall (λ c, is_digit c = true) (digits_of fuel n acc).
Proof.
  revert n acc. induction fuel as [|fuel IH]; intros n acc Hacc; [done|].
  simpl. assert (Forall (λ c, is_digit c = true) (digit_char (n mod 10) :: acc)).
  { constructor; [|done]. apply is_digit_digit_char. by apply Z.mod_pos_bound. }
  destruct (n <? 10); [done|]. by apply IH.
Qed.

Lemma digits_of_nonempty fuel n : digits_of (S fuel) n [] ≠ [].
Proof.
  simpl. destruct (n <? 10); [done|].
  generalize (n / 10). generalize (digit_char (n mod 10)).
  induction fuel as [|fuel IH] using nat_ind; intros a k; [done|].
  simpl. destruct (k <? 10); [done|].
  assert (∀ acc j, acc ≠ [] → digits_of fuel j acc ≠ []) as Hgen; [|by apply Hgen].
  clear. induction fuel as [|fuel IH]; intros acc j Hacc; [done|].
  simpl. destruct (j <? 10); [done|]. by apply IH.
Qed.

(** The characters of [str(z)]: an optional sign, then digits. *)
Lemma str_of_int_chars z :
  Forall (λ c, c = "-"%char ∨ is_digit c = true) (str_of_int z).
Proof.
  unfold str_of_int. destruct (z <? 0).
  - constructor; [by left|].
    eapply Forall_impl; [by apply digits_of_all_digits|]. by right.
  - eapply Forall_impl; [by apply digits_of_all_digits|]. by right.
Qed.

Lemma str_of_int_nonempty z : str_of_int z ≠ [].
Proof. unfold str_of_int. destruct (z <? 0); [done|]. apply digits_of_nonempty. Qed.

End decimal_facts.

(** * Facts about the loop and the marker *)

(** Closes [c ∉ l] for a concrete character and a literal. *)
Ltac solve_notin :=
  let H := fresh in
  unfold MARKER, LABEL, SEP, lit; simpl; intros H;
  repeat (apply elem_of_cons in H as [H|H]; [discriminate H|]);
  by apply elem_of_nil in H.

Section filter_facts.
Implicit Types (parts : list str) (st : loop_state) (s : str).

(** The loop is a filter: it appends the parts without the marker, in order,
    and counts the others. *)
Lemma fold_loop_body parts st :
  fold_left loop_body parts st =
  {| kept_parts :=
       kept_parts st ++ filter (λ p, Py.contains MARKER p = false) parts;
     magic_value_count :=
       (magic_value_count st
        + Z.of_nat (length (filter (λ p, Py.contains MARKER p = true) parts)))%Z |}.
Proof.
  revert st. induction parts as [|p parts IH]; intros [k n]; simpl.
  - by rewrite app_nil_r, Z.add_0_r.
  - rewrite IH. unfold loop_body. rewrite !filter_cons.
    destruct (Py.contains MARKER p) eqn:E; repeat case_decide; try congruence;
      simpl; f_equal; try lia.
    by rewrite <- (assoc_L (++)).
Qed.

Lemma run_loop_kept parts :
  kept_parts (run_loop parts) = filter (λ p, Py.contains MARKER p = false) parts.
Proof. unfold run_loop. by rewrite fold_loop_body. Qed.

Lemma run_loop_count parts :
  magic_value_count (run_loop parts)
  = Z.of_nat (length (filter (λ p, Py.contains MARKER p = true) parts)).
Proof. unfold run_loop. by rewrite fold_loop_body. Qed.

Lemma run_loop_none parts :
  Forall (λ p, Py.contains MARKER p = false) parts →
  run_loop parts = {| kept_parts := parts; magic_value_count := 0 |}.
Proof.
  intros H. unfold run_loop. rewrite fold_loop_body. simpl. f_equal.
  - clear -H. induction H as [|p parts Hp H IH]; [done|].
    rewrite filter_cons. case_decide; [|done]. by f_equal.
  - clear -H. induction H as [|p parts Hp H IH]; [done|].
    rewrite filter_cons. case_decide; [congruence|done].
Qed.

Lemma MARKER_nonempty : MARKER ≠ [].
Proof. done. Qed.

Lemma SEP_foreign : Forall (λ c, c ∉ MARKER) SEP.
Proof.
  unfold SEP, lit. simpl.
  repeat (apply Forall_cons_2; [solve_notin|]).
  apply Forall_nil_2.
Qed.

Lemma digit_foreign c : is_digit c = true → c ∉ MARKER.
Proof.
  destruct c as [[] [] [] [] [] [] [] []]; try discriminate; intros _;
    solve_notin.
Qed.

Lemma str_of_int_foreign z : Forall (λ c, c ∉ MARKER) (str_of_int z).
Proof.
  eapply Forall_impl; [apply str_of_int_chars|]. intros c [->|Hc]; simpl.
  - solve_notin.
  - by apply digit_foreign.
Qed.

(** The marker cannot appear across a seam of the rejoined text. *)
Lemma join_marker_free (l : list str) :
  Forall (λ p, Py.find MARKER p = None) l → Py.find MARKER (Py.join SEP l) = None.
Proof.
  induction 1 as [|p l Hp Hl IH]; [done|].
  destruct l as [|q l]; [done|]. rewrite join_cons by done.
  apply find_app_foreign; auto using MARKER_nonempty, SEP_foreign.
Qed.

(** Nor can rewriting the count produce it. *)
Lemma summary_line_glue z x y :
  Py.find MARKER x = None → Py.find MARKER y = None →
  Py.find MARKER (x ++ (LABEL ++ str_of_int z) ++ y) = None.
Proof.
  intros Hx Hy.
  change LABEL with (["-"%char] ++ lit " **Issues Found:** ").
  rewrite <- !(assoc_L (++)).
  apply find_app_foreign; [done|done| |].
  { apply Forall_cons_2; [|apply Forall_nil_2].
    solve_notin. }
  split; [done|].
  apply find_app_foreign;
    auto using MARKER_nonempty, str_of_int_nonempty, str_of_int_foreign.
Qed.

Lemma update_summary_marker_free s n :
  Py.find MARKER s = None → Py.find MARKER (update_summary s n) = None.
Proof.
  intros Hs. unfold update_summary. destruct (re_search s) as [[i d]|]; [|done].
  change (LABEL ++ str_of_int (int_of_str d))
    with ("-"%char :: (lit " **Issues Found:** " ++ str_of_int (int_of_str d))).
  apply replace_keeps_free; [|done]. intros x y. apply summary_line_glue.
Qed.

Lemma update_summary_zero s : update_summary s 0 = s.
Proof.
  unfold update_summary. destruct (re_search s) as [[i d]|]; [|done].
  rewrite Z.sub_0_r. apply replace_same.
Qed.

End filter_facts.

Section rejoin_facts.
Implicit Types (s p : str) (l : list str).

(** The separator does not overlap itself, so in [p ++ SEP ++ t] with no
    separator inside [p] the first separator is the one written there. *)
Lemma find_SEP_seam p t :
  Py.find SEP p = None → Py.find SEP (p ++ SEP ++ t) = Some (length p).
Proof.
  intros Hp. apply find_Some_iff. repeat split.
  - rewrite length_app. lia.
  - by rewrite drop_app_length, startswith_app.
  - intros j Hj. rewrite find_None_iff in Hp. specialize (Hp j).
    rewrite drop_app_le by lia.
    destruct (drop j p) as [|a [|b [|c [|d w]]]] eqn:E.
    + apply (f_equal length) in E. rewrite length_drop in E. simpl in E. lia.
    + simpl. by destruct (Ascii.eqb nl a).
    + simpl. by destruct (Ascii.eqb nl a), (Ascii.eqb "-" b).
    + simpl. by destruct (Ascii.eqb nl a), (Ascii.eqb "-" b), (Ascii.eqb "-" c).
    + exact Hp.
Qed.

Lemma split_join_SEP l :
  l ≠ [] → Forall (λ p, Py.find SEP p = None) l →
  Py.split SEP (Py.join SEP l) = l.
Proof.
  intros Hne Hl. induction Hl as [|p l Hp Hl IH]; [done|].
  unfold SEP at 1. rewrite split_unfold. fold SEP.
  destruct l as [|q l]; [by simpl; rewrite Hp|].
  rewrite join_cons by done. rewrite find_SEP_seam by done.
  rewrite take_app_length. f_equal.
  change (S (length (lit "---"))) with (length SEP).
  rewrite (assoc_L (++)), <- length_app, drop_app_length. by apply IH.
Qed.

Lemma join_middle sep l1 b l2 :
  Py.join sep (l1 ++ b :: l2)
  = concat (map (λ x, x ++ sep) l1) ++ b ++ concat (map (λ x, sep ++ x) l2).
Proof.
  induction l1 as [|a l1 IH].
  - cbn [app map concat]. revert b.
    induction l2 as [|c l2 IH2]; intros b; [by cbn; rewrite app_nil_r|].
    rewrite join_cons by done. rewrite IH2. cbn [app map concat].
    by rewrite <- !(assoc_L (++)).
  - cbn [app map concat]. rewrite join_cons by (by destruct l1).
    rewrite IH. by rewrite <- !(assoc_L (++)).
Qed.

Lemma kept_parts_no_marker content :
  Forall (λ p, Py.find MARKER p = None)
         (kept_parts (run_loop (parts_of content))).
Proof.
  rewrite run_loop_kept. apply Forall_forall.
  intros p [Hp _]%list_elem_of_filter. by apply contains_find_None.
Qed.

Lemma kept_parts_no_SEP content :
  Forall (λ p, Py.find SEP p = None)
         (kept_parts (run_loop (parts_of content))).
Proof.
  rewrite run_loop_kept. apply Forall_forall.
  intros p [_ Hp]%list_elem_of_filter. by eapply split_no_sep.
Qed.

(** A text whose parts are all free of the marker is a fixed point. *)
Lemma filter_text_fixed content :
  Forall (λ p, Py.contains MARKER p = false) (parts_of content) →
  filter_text content = (content, 0%Z).
Proof.
  intros H. unfold filter_text. fold (parts_of content).
  rewrite run_loop_none by done. simpl.
  unfold parts_of. by rewrite join_split, update_summary_zero.
Qed.

Lemma filter_text_marker_free content :
  Py.find MARKER content = None → filter_text content = (content, 0%Z).
Proof.
  intros H. apply filter_text_fixed, Forall_forall. intros p Hp.
  apply contains_find_None. eapply find_None_substring; [done|].
  by eapply split_substring.
Qed.

Lemma filter_text_output_marker_free content :
  Py.find MARKER (fst (filter_text content)) = None.
Proof.
  unfold filter_text. simpl. apply update_summary_marker_free, join_marker_free.
  apply kept_parts_no_marker.
Qed.

End rejoin_facts.

(** * Facts about the summary pattern *)

Section pattern_facts.
Implicit Types (s t x y d : str).

Lemma digit_run_app_nondigit x c y :
  is_digit c = false → digit_run (x ++ c :: y) = digit_run x.
Proof.
  intros Hc. induction x as [|a x IH]; simpl; [by rewrite Hc|].
  destruct (is_digit a); [by f_equal|done].
Qed.

Lemma digit_run_digits t : Forall (λ c, is_digit c = true) (digit_run t).
Proof.
  induction t as [|a t IH]; simpl; [constructor|].
  destruct (is_digit a) eqn:E; by constructor.
Qed.

Lemma digit_run_prefix t : Py.startswith (digit_run t) t = true.
Proof.
  induction t as [|a t IH]; simpl; [done|].
  destruct (is_digit a); [|done]. simpl. by rewrite Ascii.eqb_refl.
Qed.

Lemma nl_not_in_LABEL : nl ∉ LABEL.
Proof. solve_notin. Qed.

(** A match never spans a line break. *)
Lemma match_here_app_nl x y : match_here (x ++ nl :: y) = match_here x.
Proof.
  unfold match_here. rewrite startswith_app_notin by apply nl_not_in_LABEL.
  destruct (Py.startswith LABEL x) eqn:E; [|done].
  apply Py.startswith_length in E. rewrite drop_app_le by done.
  by rewrite digit_run_app_nondigit.
Qed.

Lemma re_search_app_nl x y :
  re_search (x ++ nl :: y) = None ↔ re_search x = None ∧ re_search y = None.
Proof.
  induction x as [|a x IH].
  - pose proof (match_here_app_nl [] y) as H0. cbn [app] in H0.
    cbn [app re_search]. rewrite H0. change (match_here []) with (@None str).
    destruct (re_search y); simpl; intuition congruence.
  - cbn [app re_search]. rewrite (app_comm_cons x (nl :: y) a).
    rewrite match_here_app_nl. destruct (match_here (a :: x)).
    { intuition congruence. }
    destruct (re_search (x ++ nl :: y)), (re_search x); simpl;
      intuition congruence.
Qed.

Lemma re_search_suffix x y : re_search (x ++ y) = None → re_search y = None.
Proof.
  induction x as [|a x IH]; [done|]. cbn [app re_search].
  destruct (match_here (a :: x ++ y)); [done|].
  destruct (re_search (x ++ y)); [done|]. auto.
Qed.

(** Where the rejoined text can match: in its first block, or in a later
    block together with the three hyphens that precede it. *)
Lemma re_search_join pre q (l : list str) :
  re_search (pre ++ Py.join SEP (q :: l)) = None ↔
  re_search (pre ++ q) = None
  ∧ Forall (λ r, re_search (lit "---" ++ r) = None) l.
Proof.
  revert pre q. induction l as [|r l IH]; intros pre q.
  - cbn [Py.join]. rewrite Forall_nil. tauto.
  - rewrite join_cons by done. unfold SEP at 1.
    rewrite (assoc_L (++) pre q). cbn [app].
    rewrite re_search_app_nl, IH, Forall_cons. tauto.
Qed.

Lemma re_search_join_filter (P : str → Prop) `{!∀ p, Decision (P p)}
    (parts : list str) :
  re_search (Py.join SEP parts) = None →
  re_search (Py.join SEP (filter P parts)) = None.
Proof.
  destruct parts as [|p l]; [done|].
  intros [Hp Hl]%(re_search_join [] p l). cbn [app] in Hp.
  assert (Forall (λ r, re_search (lit "---" ++ r) = None) (filter P l)) as Hf.
  { apply Forall_forall. intros r [_ Hr]%list_elem_of_filter.
    by eapply Forall_forall in Hl. }
  rewrite filter_cons. destruct (decide (P p)).
  - by apply (re_search_join [] p (filter P l)).
  - destruct (filter P l) as [|r l2]; [done|].
    apply Forall_cons in Hf as [Hr Hl2].
    apply (re_search_join [] r l2). split; [|done].
    by apply re_search_suffix in Hr.
Qed.

Lemma re_search_rejoined content :
  re_search content = None → re_search (rejoined content) = None.
Proof.
  intros H. unfold rejoined. rewrite run_loop_kept.
  apply re_search_join_filter. unfold parts_of. by rewrite join_split.
Qed.

(** The leftmost match, position by position. *)
Lemma re_search_Some s i d :
  re_search s = Some (i, d) →
  i ≤ length s ∧ match_here (drop i s) = Some d
  ∧ ∀ j, j < i → match_here (drop j s) = None.
Proof.
  revert i. induction s as [|a s IH]; intros i; cbn [re_search].
  - change (match_here []) with (@None str). discriminate.
  - destruct (match_here (a :: s)) eqn:E.
    + intros [= <- <-]. rewrite drop_0. repeat split; [lia|done|lia].
    + destruct (re_search s) as [[k d']|]; simpl; [|discriminate].
      intros [= <- <-]. destruct (IH _ eq_refl) as (H1 & H2 & H3).
      repeat split; [simpl; lia|done|].
      intros [|j] Hj; [by rewrite drop_0|]. simpl. apply H3. lia.
Qed.

Lemma match_here_Some t d :
  match_here t = Some d →
  Py.startswith (LABEL ++ d) t = true
  ∧ d = digit_run (drop (length LABEL) t) ∧ d ≠ [].
Proof.
  unfold match_here. destruct (Py.startswith LABEL t) eqn:E; [|discriminate].
  destruct (digit_run (drop (length LABEL) t)) as [|c cs] eqn:Ed; [discriminate|].
  intros [= <-]. repeat split; [|done..].
  rewrite startswith_app_l, E, <- Ed. apply digit_run_prefix.
Qed.

Lemma match_here_None t c cs :
  match_here t = None → is_digit c = true →
  Py.startswith (LABEL ++ c :: cs) t = false.
Proof.
  unfold match_here. rewrite startswith_app_l.
  destruct (Py.startswith LABEL t); [|done]. cbn [andb].
  destruct (drop (length LABEL) t) as [|b u]; [done|].
  cbn [digit_run Py.startswith].
  destruct (Ascii.eqb_spec c b) as [<-|]; [|done]. intros H Hc.
  by rewrite Hc in H.
Qed.

(** The line that [replace] looks for — the label and the matched digits —
    first occurs where the pattern matched. *)
Lemma find_summary_line s i d :
  re_search s = Some (i, d) → Py.find (LABEL ++ d) s = Some i.
Proof.
  intros (Hi & Hm & Hmin)%re_search_Some.
  apply match_here_Some in Hm as (Hm & Hd & Hne).
  apply find_Some_iff. repeat split; [done..|].
  intros j Hj. destruct d as [|c cs]; [done|].
  apply match_here_None; [by apply Hmin|].
  pose proof (digit_run_digits (drop (length LABEL) (drop i s))) as Hall.
  rewrite <- Hd in Hall. by apply Forall_cons in Hall as [? _].
Qed.

Lemma digit_run_replace c old' new t :
  digit_run new = [] → new ≠ [] →
  digit_run t = [] → digit_run (Py.replace (c :: old') new t) = [].
Proof.
  intros Hnew Hne Ht. rewrite replace_unfold.
  destruct (Py.find (c :: old') t) as [k|] eqn:E; [|done].
  destruct new as [|b new]; [done|].
  destruct t as [|a t]; [by destruct k|].
  simpl in Ht. destruct (is_digit a) eqn:Ea; [done|].
  destruct k as [|k]; simpl.
  - simpl in Hnew. by destruct (is_digit b).
  - by rewrite Ea.
Qed.

Lemma digit_run_after t : digit_run (drop (length (digit_run t)) t) = [].
Proof.
  induction t as [|a t IH]; [done|]. simpl.
  destruct (is_digit a) eqn:E; simpl; [done|]. by rewrite E.
Qed.

End pattern_facts.

Section io_facts.

(** A run of [filter_report] whose two files can be opened. *)
Lemma filter_report_run input_path output_path content w :
  files w !! input_path = Some content →
  output_path ∉ read_only w →
  filter_report input_path output_path w =
  ({| files := <[output_path := fst (filter_text content)]> (files w);
      read_only := read_only w;
      stdout := stdout w ++ [REMOVED_LINE (snd (filter_text content))];
      io_log := io_log w ++ [OpenRead input_path; OpenWrite output_path] |},
   inr ()).
Proof.
  intros Hin Hout. unfold filter_report, mbind, io_bind, read_file.
  rewrite Hin. cbn -[filter_text update_summary Py.split Py.join run_loop str_of_int lit].
  unfold write_file. cbn -[filter_text update_summary Py.split Py.join run_loop str_of_int lit].
  rewrite decide_False by done. by rewrite <- (assoc_L (++)).
Qed.

End io_facts.

(** * Facts about base64url *)

Section base64_facts.
Local Open Scope N_scope.

Lemma lt_64_cases (P : N → Prop) :
  Forall P (N.of_nat <$> seq 0 64) → ∀ i, i < 64 → P i.
Proof.
  intros H i Hi. rewrite Forall_forall in H. apply H.
  apply list_elem_of_fmap. exists (N.to_nat i). split; [lia|].
  apply elem_of_seq. lia.
Qed.

Lemma b64_index_char i : i < 64 → b64_index (b64_char i) = Some i.
Proof.
  revert i. apply lt_64_cases. cbn [seq fmap list_fmap].
  repeat (apply Forall_cons_2; [reflexivity|]). apply Forall_nil_2.
Qed.

Lemma b64_char_not_pad i : i < 64 → b64_char i ≠ "="%char.
Proof.
  revert i. apply lt_64_cases. cbn [seq fmap list_fmap].
  repeat (apply Forall_cons_2; [discriminate|]). apply Forall_nil_2.
Qed.

Lemma b64_char_not_dot i : i < 64 → b64_char i ≠ "."%char.
Proof.
  revert i. apply lt_64_cases. cbn [seq fmap list_fmap].
  repeat (apply Forall_cons_2; [discriminate|]). apply Forall_nil_2.
Qed.

Lemma rstrip_cons_ne c a s : a ≠ c → rstrip c (a :: s) = a :: rstrip c s.
Proof.
  intros Hne. cbn [rstrip]. destruct (rstrip c s); [|done].
  destruct (Ascii.eqb_spec a c); [done|done].
Qed.

Lemma bytes_ind3 (P : bytes → Prop) :
  P [] → (∀ a, P [a]) → (∀ a b, P [a; b]) →
  (∀ a b c r, P r → P (a :: b :: c :: r)) → ∀ data, P data.
Proof.
  intros H0 H1 H2 H3.
  assert (∀ data, P data ∧ (∀ a, P (a :: data)) ∧ ∀ a b, P (a :: b :: data)) as H.
  { induction data as [|x data (IH0 & IH1 & IH2)]; [by auto|].
    repeat split; auto. }
  intros data. apply H.
Qed.

Lemma octet_bound a : N_of_ascii a < 256.
Proof. apply N_ascii_bounded. Qed.

(** The four 6-bit digits of a number add up to it. *)
Lemma sextets_sum n :
  n / 262144 * 262144 + (n / 4096 mod 64) * 4096 + (n / 64 mod 64) * 64
  + n mod 64 = n.
Proof.
  replace (n / 262144) with (n / 64 / 64 / 64)
    by (rewrite !N.Div0.div_div; reflexivity).
  replace (n / 4096) with (n / 64 / 64) by (rewrite !N.Div0.div_div; reflexivity).
  pose proof (N.div_mod n 64 ltac:(lia)).
  pose proof (N.div_mod (n / 64) 64 ltac:(lia)).
  pose proof (N.div_mod (n / 64 / 64) 64 ltac:(lia)).
  generalize dependent (n mod 64). generalize dependent (n / 64 mod 64).
  generalize dependent (n / 64 / 64 mod 64).
  generalize dependent (n / 64 / 64 / 64).
  generalize dependent (n / 64 / 64). generalize dependent (n / 64).
  intros. lia.
Qed.

Ltac sextet_bound :=
  first [ apply N.mod_lt; lia | apply N.Div0.div_lt_upper_bound; lia ].

Lemma group3_octets a b c :
  a < 256 → b < 256 → c < 256 →
  let n := a * 65536 + b * 256 + c in
  n / 65536 = a ∧ n / 256 mod 256 = b ∧ n mod 256 = c.
Proof.
  intros Ha Hb Hc n. subst n. repeat split.
  - symmetry. apply (N.div_unique _ _ _ (b * 256 + c)); lia.
  - replace ((a * 65536 + b * 256 + c) / 256) with (a * 256 + b)
      by (apply (N.div_unique _ _ _ c); lia).
    symmetry. apply (N.mod_unique _ _ a); lia.
  - symmetry. apply (N.mod_unique _ _ (a * 256 + b)); lia.
Qed.

Lemma group2_octets a b :
  a < 256 → b < 256 →
  let n := a * 65536 + b * 256 in
  let m := n / 262144 * 4096 + (n / 4096 mod 64) * 64 + n / 64 mod 64 in
  m / 1024 = a ∧ m / 4 mod 256 = b.
Proof.
  intros Ha Hb n m. pose proof (sextets_sum n) as Hs.
  assert (n mod 64 = 0) as H0.
  { symmetry. apply (N.mod_unique _ _ (a * 1024 + b * 4)); subst n; lia. }
  assert (m = a * 1024 + b * 4) as -> by (subst m n; lia). split.
  - symmetry. apply (N.div_unique _ _ _ (b * 4)); lia.
  - replace ((a * 1024 + b * 4) / 4) with (a * 256 + b)
      by (apply (N.div_unique _ _ _ 0); lia).
    symmetry. apply (N.mod_unique _ _ a); lia.
Qed.

Lemma group1_octet a :
  a < 256 →
  let n := a * 65536 in
  (n / 262144 * 64 + n / 4096 mod 64) / 16 = a.
Proof.
  intros Ha n. pose proof (sextets_sum n) as Hs.
  assert (n mod 64 = 0) as H0.
  { symmetry. apply (N.mod_unique _ _ (a * 1024)); subst n; lia. }
  assert (n / 64 mod 64 = 0) as H1.
  { replace (n / 64) with (a * 1024)
      by (apply (N.div_unique _ _ _ 0); subst n; lia).
    symmetry. apply (N.mod_unique _ _ (a * 16)); lia. }
  replace (n / 262144 * 64 + n / 4096 mod 64) with (a * 16)
    by (subst n; lia).
  symmetry. apply (N.div_unique _ _ _ 0); lia.
Qed.

Lemma b64url_round_trip data : b64url_decode (b64url data) = Some data.
Proof.
  unfold b64url, bytes_decode. induction data as [|a|a b|a b c r IH] using bytes_ind3.
  - done.
  - pose proof (octet_bound a) as Ha. cbn [urlsafe_b64encode].
    rewrite !rstrip_cons_ne by (apply b64_char_not_pad; sextet_bound).
    cbn [rstrip Ascii.eqb Bool.eqb b64url_decode].
    rewrite !b64_index_char by sextet_bound. cbn [mbind option_bind].
    rewrite group1_octet by done. by rewrite ascii_N_embedding.
  - pose proof (octet_bound a) as Ha. pose proof (octet_bound b) as Hb.
    cbn [urlsafe_b64encode].
    rewrite !rstrip_cons_ne by (apply b64_char_not_pad; sextet_bound).
    cbn [rstrip Ascii.eqb Bool.eqb b64url_decode].
    rewrite !b64_index_char by sextet_bound. cbn [mbind option_bind].
    destruct (group2_octets _ _ Ha Hb) as [-> ->].
    by rewrite !ascii_N_embedding.
  - pose proof (octet_bound a) as Ha. pose proof (octet_bound b) as Hb.
    pose proof (octet_bound c) as Hc.
    cbn [urlsafe_b64encode app].
    rewrite !rstrip_cons_ne by (apply b64_char_not_pad; sextet_bound).
    cbn [b64url_decode].
    rewrite !b64_index_char by sextet_bound. cbn [mbind option_bind].
    rewrite IH. cbn [mbind option_bind]. rewrite sextets_sum.
    destruct (group3_octets _ _ _ Ha Hb Hc) as (-> & -> & ->).
    by rewrite !ascii_N_embedding.
Qed.

(** The encoded text has no dot in it. *)
Lemma b64url_no_dot data : "."%char ∉ b64url data.
Proof.
  unfold b64url, bytes_decode.
  assert (∀ s, "."%char ∉ s → "."%char ∉ rstrip "=" s) as Hstrip.
  { induction s as [|x s IH]; [done|]. intros [Hx Hs]%not_elem_of_cons.
    cbn [rstrip]. destruct (rstrip "=" s) eqn:E.
    - destruct (Ascii.eqb x "="); [apply not_elem_of_nil|].
      apply not_elem_of_cons. split; [done|apply not_elem_of_nil].
    - apply not_elem_of_cons. split; [done|]. by apply IH. }
  apply Hstrip.
  induction data as [|a|a b|a b c r IH] using bytes_ind3.
  - apply not_elem_of_nil.
  - pose proof (octet_bound a) as Ha. cbn [urlsafe_b64encode].
    rewrite !not_elem_of_cons. repeat split; try discriminate;
      try apply not_elem_of_nil; apply not_eq_sym, b64_char_not_dot; sextet_bound.
  - pose proof (octet_bound a) as Ha. pose proof (octet_bound b) as Hb.
    cbn [urlsafe_b64encode].
    rewrite !not_elem_of_cons. repeat split; try discriminate;
      try apply not_elem_of_nil; apply not_eq_sym, b64_char_not_dot; sextet_bound.
  - pose proof (octet_bound a) as Ha. pose proof (octet_bound b) as Hb.
    pose proof (octet_bound c) as Hc. cbn [urlsafe_b64encode app].
    rewrite !not_elem_of_cons. repeat split; try done;
      apply not_eq_sym, b64_char_not_dot; sextet_bound.
Qed.

End base64_facts.

(** * Decimal text read back *)

Section decimal_round_trip.
Local Open Scope Z_scope.

Lemma int_of_str_snoc s c :
  int_of_str (s ++ [c]) = 10 * int_of_str s + digit_value c.
Proof. unfold int_of_str. by rewrite fold_left_app. Qed.

Lemma digits_of_acc fuel n acc :
  digits_of fuel n acc = digits_of fuel n [] ++ acc.
Proof.
  revert n acc. induction fuel as [|fuel IH]; intros n acc; [done|].
  cbn [digits_of]. destruct (n <? 10); [done|].
  rewrite (IH _ (_ :: acc)), (IH _ [_]). by rewrite <- (assoc_L (++)).
Qed.

Lemma int_of_str_digits_of (fuel : nat) n :
  0 ≤ n < 10 ^ Z.of_nat fuel → int_of_str (digits_of fuel n []) = n.
Proof.
  revert n. induction fuel as [|fuel IH]; intros n Hn.
  { change (10 ^ Z.of_nat 0) with 1 in Hn. cbn. lia. }
  cbn [digits_of]. destruct (Z.ltb_spec n 10) as [Hlt|Hge].
  - rewrite Z.mod_small by lia. unfold int_of_str. simpl fold_left.
    rewrite digit_value_digit_char; lia.
  - rewrite digits_of_acc, int_of_str_snoc.
    rewrite digit_value_digit_char by (apply Z.mod_pos_bound; lia).
    rewrite IH; [pose proof (Z.div_mod n 10); lia|].
    rewrite Nat2Z.inj_succ, Z.pow_succ_r in Hn by lia.
    split; [apply Z.div_pos; lia|]. apply Z.div_lt_upper_bound; lia.
Qed.

Lemma decimal_fuel n : 0 ≤ n → n < 10 ^ Z.of_nat (S (Z.to_nat (Z.log2 n))).
Proof.
  intros Hn. rewrite Nat2Z.inj_succ, Z2Nat.id by apply Z.log2_nonneg.
  destruct (decide (n = 0)) as [->|Hne]; [done|].
  pose proof (Z.log2_spec n ltac:(lia)) as [_ Hlt].
  eapply Z.lt_le_trans; [exact Hlt|].
  apply Z.pow_le_mono_l. pose proof (Z.log2_nonneg n). lia.
Qed.

Lemma digit_run_all ds r :
  Forall (λ c, is_digit c = true) ds → digit_run r = [] →
  digit_run (ds ++ r) = ds.
Proof.
  intros Hds Hr. induction Hds as [|d ds Hd Hds IH]; [done|].
  simpl. by rewrite Hd, IH.
Qed.

Lemma parse_digits_digits_of (fuel : nat) n r :
  0 ≤ n < 10 ^ Z.of_nat (S fuel) → digit_run r = [] →
  parse_digits (digits_of (S fuel) n [] ++ r) = Some (n, r).
Proof.
  intros Hn Hr. unfold parse_digits.
  rewrite digit_run_all by (done || by apply digits_of_all_digits).
  pose proof (digits_of_nonempty fuel n) as Hne.
  pose proof (int_of_str_digits_of (S fuel) n Hn) as Hval.
  destruct (digits_of (S fuel) n []) as [|d ds]; [done|].
  by rewrite Hval, drop_app_length.
Qed.

Lemma digit_not_minus c : is_digit c = true → Ascii.eqb c "-" = false.
Proof. by destruct c as [[] [] [] [] [] [] [] []]. Qed.

Lemma digit_not_quote c : is_digit c = true → Ascii.eqb c dq = false.
Proof. by destruct c as [[] [] [] [] [] [] [] []]. Qed.

Lemma digit_not_ws c : is_digit c = true → is_ws c = false.
Proof. by destruct c as [[] [] [] [] [] [] [] []]. Qed.

(** A number written by [str] and read back. *)
Lemma parse_number_str_of_int z r :
  digit_run r = [] → parse_number (str_of_int z ++ r) = Some (z, r).
Proof.
  intros Hr. unfold str_of_int. destruct (Z.ltb_spec z 0) as [Hneg|Hpos].
  - cbn [app parse_number Ascii.eqb Bool.eqb].
    rewrite parse_digits_digits_of; [|split; [lia|apply decimal_fuel; lia]|done].
    cbn. f_equal. f_equal. lia.
  - pose proof (digits_of_nonempty (Z.to_nat (Z.log2 z)) z) as Hne.
    pose proof (digits_of_all_digits (S (Z.to_nat (Z.log2 z))) z [] (Forall_nil_2 _))
      as Hall.
    pose proof (parse_digits_digits_of (Z.to_nat (Z.log2 z)) z r
                  (conj Hpos (decimal_fuel z Hpos)) Hr) as Hp.
    destruct (digits_of (S (Z.to_nat (Z.log2 z))) z []) as [|d ds]; [done|].
    apply Forall_cons in Hall as [Hd _].
    cbn [app parse_number]. by rewrite digit_not_minus.
Qed.

End decimal_round_trip.

(** * JSON text read back *)

Ltac json_step :=
  cbn [app skip_ws parse_members parse_value is_ws Ascii.eqb Bool.eqb orb andb
       dq lit list_ascii_of_string mbind option_bind fst snd rev].

Section json_round_trip.
Implicit Types (s r acc : str) (v : jvalue) (d : list (str * jvalue)).

Lemma parse_string_body_escape c r acc :
  parse_string_body (json_escape c ++ r) acc = parse_string_body r (c :: acc).
Proof. by destruct c as [[] [] [] [] [] [] [] []]. Qed.

Lemma parse_string_body_escaped s r acc :
  parse_string_body (concat (map json_escape s) ++ dq :: r) acc
  = Some (rev acc ++ s, r).
Proof.
  revert acc. induction s as [|c s IH]; intros acc.
  - cbn. by rewrite app_nil_r.
  - cbn [map concat]. rewrite <- (assoc_L (++)), parse_string_body_escape, IH.
    cbn [rev]. by rewrite <- (assoc_L (++)).
Qed.

Lemma json_value_head v :
  ∃ c cs, json_value v = c :: cs ∧ is_ws c = false.
Proof.
  destruct v as [s|z]; cbn [json_value].
  - by exists dq, (concat (map json_escape s) ++ [dq]).
  - pose proof (str_of_int_nonempty z) as Hne.
    pose proof (str_of_int_chars z) as Hall.
    destruct (str_of_int z) as [|c cs]; [done|]. exists c, cs. split; [done|].
    apply Forall_cons in Hall as [[->|Hc] _]; [done|by apply digit_not_ws].
Qed.

Lemma parse_value_json_value v r :
  digit_run r = [] → parse_value (json_value v ++ r) = Some (v, r).
Proof.
  intros Hr. destruct v as [s|z]; cbn [json_value].
  - unfold json_string. cbn [app parse_value].
    change (Ascii.eqb dq dq) with true. cbn match.
    rewrite <- (assoc_L (++)). cbn [app].
    by rewrite parse_string_body_escaped.
  - pose proof (parse_number_str_of_int z r Hr) as Hp.
    pose proof (str_of_int_nonempty z) as Hne.
    pose proof (str_of_int_chars z) as Hall.
    destruct (str_of_int z) as [|c cs]; [done|]. cbn [app parse_value] in *.
    apply Forall_cons in Hall as [Hc _].
    assert (Ascii.eqb c dq = false) as ->.
    { destruct Hc as [->|Hc]; [done|by apply digit_not_quote]. }
    by rewrite Hp.
Qed.

Lemma parse_members_space (fuel : nat) s :
  parse_members fuel (" "%char :: s) = parse_members fuel s.
Proof. by destruct fuel. Qed.

(** One member, then the rest of the object. *)
Lemma parse_members_item (fuel : nat) k v tail :
  digit_run tail = [] → skip_ws tail = tail →
  parse_members (S fuel) (json_item (k, v) ++ tail) =
  match tail with
  | c3 :: s5 =>
      if Ascii.eqb c3 "," then
        rest ← parse_members fuel s5; Some ((k, v) :: rest)
      else if Ascii.eqb c3 "}" then
        match skip_ws s5 with [] => Some [(k, v)] | _ :: _ => None end
      else None
  | [] => None
  end.
Proof.
  intros Hd Hws. unfold json_item, json_string. cbn [fst snd].
  rewrite <- !(assoc_L (++)). json_step.
  rewrite <- (assoc_L (++)). json_step.
  rewrite parse_string_body_escaped. json_step.
  destruct (json_value_head v) as (c & cs & Hv & Hc).
  assert (skip_ws (json_value v ++ tail) = json_value v ++ tail) as ->.
  { rewrite Hv. cbn [app skip_ws]. by rewrite Hc. }
  rewrite parse_value_json_value by done.
  cbn [mbind option_bind fst snd]. by rewrite Hws.
Qed.

Lemma parse_members_json_items (fuel : nat) d :
  d ≠ [] → length d ≤ fuel →
  parse_members fuel (Py.join (lit ", ") (map json_item d) ++ ["}"%char]) = Some d.
Proof.
  revert fuel. induction d as [|[k v] d IH]; intros fuel Hne Hlen; [done|].
  destruct fuel as [|fuel]; [simpl in Hlen; lia|].
  destruct d as [|kv d].
  - cbn [map Py.join]. by rewrite parse_members_item.
  - cbn [map]. rewrite join_cons by done. rewrite <- !(assoc_L (++)).
    rewrite parse_members_item by done.
    cbn [app lit list_ascii_of_string Ascii.eqb Bool.eqb].
    rewrite parse_members_space.
    change (json_item kv :: map json_item d) with (map json_item (kv :: d)).
    rewrite IH; [done|done|]. simpl in *. lia.
Qed.

Lemma json_items_length d :
  length d ≤ length (Py.join (lit ", ") (map json_item d)).
Proof.
  induction d as [|[k v] d IH]; [done|]. destruct d as [|kv d].
  - cbn. lia.
  - cbn [map]. rewrite join_cons by done.
    change (json_item kv :: map json_item d) with (map json_item (kv :: d)).
    rewrite !length_app. unfold json_item at 1, json_string. cbn in *. lia.
Qed.

(** What [json.dumps] writes, [json.loads] reads back. *)
Lemma json_loads_dumps d : json_loads (json_dumps d) = Some d.
Proof.
  destruct d as [|[k v] d]; [done|].
  unfold json_dumps, json_loads. cbn [skip_ws]. change (is_ws "{") with false.
  cbn match. change (Ascii.eqb "{" "{") with true. cbn match.
  assert (∃ t, Py.join (lit ", ") (map json_item ((k, v) :: d)) = dq :: t)
    as [t Ht].
  { cbn [map]. destruct d; [|rewrite join_cons by done];
      unfold json_item, json_string; cbn; eauto. }
  rewrite Ht. cbn [app skip_ws]. change (is_ws dq) with false. cbn match.
  change (Ascii.eqb dq "}") with false. cbn match.
  change (dq :: t ++ ["}"%char]) with ((dq :: t) ++ ["}"%char]). rewrite <- Ht.
  apply parse_members_json_items; [done|].
  rewrite length_app. pose proof (json_items_length ((k, v) :: d)). lia.
Qed.

(** [json.dumps] writes ASCII only. *)
Lemma json_escape_ascii c : forallb is_ascii (json_escape c) = true.
Proof. by destruct c as [[] [] [] [] [] [] [] []]. Qed.

Lemma digit_ascii c : is_digit c = true → is_ascii c = true.
Proof. by destruct c as [[] [] [] [] [] [] [] []]. Qed.

Lemma forallb_app_true (f : ascii → bool) s r :
  forallb f s = true → forallb f r = true → forallb f (s ++ r) = true.
Proof. intros Hs Hr. rewrite forallb_app. by rewrite Hs, Hr. Qed.

Lemma json_string_ascii s : forallb is_ascii (json_string s) = true.
Proof.
  unfold json_string. cbn [forallb]. change (is_ascii dq) with true. cbn [andb].
  apply forallb_app_true; [|done].
  induction s as [|c s IH]; [done|]. cbn [map concat].
  apply forallb_app_true; [apply json_escape_ascii|done].
Qed.

Lemma str_of_int_ascii z : forallb is_ascii (str_of_int z) = true.
Proof.
  apply forallb_forall. intros c Hc%list_elem_of_In.
  pose proof (str_of_int_chars z) as Hall. rewrite Forall_forall in Hall.
  destruct (Hall c Hc) as [->|Hd]; [done|by apply digit_ascii].
Qed.

Lemma json_item_ascii kv : forallb is_ascii (json_item kv) = true.
Proof.
  unfold json_item. apply forallb_app_true; [apply json_string_ascii|].
  apply forallb_app_true; [done|].
  destruct (snd kv); [apply json_string_ascii|apply str_of_int_ascii].
Qed.

Lemma json_dumps_ascii d : forallb is_ascii (json_dumps d) = true.
Proof.
  unfold json_dumps. cbn [forallb]. change (is_ascii "{") with true. cbn [andb].
  apply forallb_app_true; [|done].
  induction d as [|kv d IH]; [done|]. destruct d as [|kv' d].
  - apply json_item_ascii.
  - cbn [map]. rewrite join_cons by done.
    apply forallb_app_true; [apply json_item_ascii|].
    apply forallb_app_true; [done|]. exact IH.
Qed.

Lemma str_encode_ascii s : forallb is_ascii s = true → str_encode s = s.
Proof.
  induction s as [|c s IH]; [done|]. cbn [forallb].
  intros [Hc Hs]%andb_prop. unfold str_encode. cbn [map concat].
  fold (str_encode s). rewrite IH by done. unfold utf8_char.
  unfold is_ascii in Hc. by rewrite Hc.
Qed.

Lemma ascii_text_ascii s : forallb is_ascii s = true → ascii_text s = Some s.
Proof. intros H. unfold ascii_text. by rewrite H. Qed.

End json_round_trip.

(** * The token generator *)

Section token_facts.

Lemma find_single c (x y : str) :
  c ∉ x → Py.find [c] (x ++ c :: y) = Some (length x).
Proof.
  intros Hc. apply find_Some_iff. repeat split.
  - rewrite length_app. lia.
  - rewrite drop_app_length. cbn. by rewrite Ascii.eqb_refl.
  - intros j Hj. rewrite drop_app_le by lia.
    destruct (drop j x) as [|a t] eqn:E.
    { apply (f_equal length) in E. rewrite length_drop in E. simpl in E. lia. }
    cbn. destruct (Ascii.eqb_spec c a) as [->|]; [|done].
    destruct Hc. rewrite <- (take_drop j x), E.
    apply elem_of_app. right. apply elem_of_cons. by left.
Qed.

Lemma split_single c (x y : str) :
  c ∉ x → Py.split [c] (x ++ c :: y) = x :: Py.split [c] y.
Proof.
  intros Hc. rewrite split_unfold, find_single by done.
  rewrite take_app_length. cbn [length]. by rewrite drop_app_add.
Qed.

(** The second segment of the printed token is the payload segment. *)
Lemma token_second_segment hmac now :
  Py.split (lit ".") (gen_jwt hmac now) !! 1 = Some (payload now).
Proof.
  unfold gen_jwt. change (lit ".") with ["."%char].
  rewrite split_single by apply b64url_no_dot.
  rewrite split_single by apply b64url_no_dot. done.
Qed.

(** Truncation toward zero loses less than one second. *)
Lemma int_of_float_bound (x : Q) (k : Z) :
  (1 ≤ k)%Z → (x < inject_Z (int_of_float x + k))%Q.
Proof.
  intros Hk. unfold Qlt, int_of_float. destruct x as [a b]. cbn.
  pose proof (Z.quot_rem' a (Z.pos b)) as Hqr.
  pose proof (Z.rem_bound_abs a (Z.pos b) ltac:(lia)) as Hr.
  nia.
Qed.

End token_facts.

(** * Further facts about the loop and the runs *)

Section more_filter_facts.
Implicit Types (l parts : list str) (p s : str).

Lemma contains_marker_length p : Py.contains MARKER p = true → 16 ≤ length p.
Proof.
  unfold Py.contains. destruct (Py.find MARKER p) as [i|] eqn:E; [|done].
  intros _. apply Py.find_bound in E. change (length MARKER) with 16 in E. lia.
Qed.

Lemma filter_nil_Forall (P : str → Prop) `{!∀ p, Decision (P p)} l :
  filter P l = [] → Forall (λ p, ¬ P p) l.
Proof.
  intros Hnil. apply Forall_forall. intros p Hp HP.
  assert (p ∈ filter P l) as Hin by by apply list_elem_of_filter.
  rewrite Hnil in Hin. by apply elem_of_nil in Hin.
Qed.

Lemma parts_marker_free content :
  Py.find MARKER content = None →
  Forall (λ p, Py.contains MARKER p = false) (parts_of content).
Proof.
  intros H. apply Forall_forall. intros p Hp.
  apply contains_find_None. eapply find_None_substring; [done|].
  by eapply split_substring.
Qed.

Lemma removed_count_zero content :
  removed_count content = 0%Z →
  Forall (λ p, Py.contains MARKER p = false) (parts_of content).
Proof.
  unfold removed_count. rewrite run_loop_count. intros H.
  assert (filter (λ p, Py.contains MARKER p = true) (parts_of content) = [])
    as Hnil.
  { destruct (filter _ (parts_of content)); [done|]. simpl in H. lia. }
  apply filter_nil_Forall in Hnil. eapply Forall_impl; [exact Hnil|].
  intros p Hp. simpl in Hp. by destruct (Py.contains MARKER p).
Qed.

Lemma join_filter_length l :
  (Z.of_nat (length (Py.join SEP (filter (λ p, Py.contains MARKER p = false) l)))
   + 16 * Z.of_nat (length (filter (λ p, Py.contains MARKER p = true) l))
   ≤ Z.of_nat (length (Py.join SEP l)))%Z.
Proof.
  induction l as [|p l IH]; [done|].
  assert (length (Py.join SEP (p :: l))
          = length p + match l with [] => 0 | _ => 4 + length (Py.join SEP l) end)
    as Hfull.
  { destruct l; [cbn; lia|]. rewrite join_cons by done.
    rewrite !length_app. change (length SEP) with 4. lia. }
  rewrite Hfull, !filter_cons.
  destruct (Py.contains MARKER p) eqn:E; repeat case_decide; try congruence.
  - apply contains_marker_length in E. cbn [length].
    destruct l as [|q l]; [cbn; lia|].
    lia.
  - set (kept := filter (λ p, Py.contains MARKER p = false) l) in *.
    assert (length (Py.join SEP (p :: kept))
            = length p + match kept with
                         | [] => 0 | _ => 4 + length (Py.join SEP kept) end)
      as Hkept.
    { destruct kept; [cbn; lia|]. rewrite join_cons by done.
      rewrite !length_app. change (length SEP) with 4. lia. }
    rewrite Hkept. destruct kept as [|k kept'] eqn:Ek.
    + destruct l as [|q l]; [cbn; lia|].
      change (Py.join SEP []) with (@nil ascii) in IH. cbn [length] in IH. lia.
    + destruct l as [|q l]; [done|]. lia.
Qed.

End more_filter_facts.

Section more_summary_facts.

Lemma str_of_int_negative z : (z < 0)%Z → str_of_int z = "-"%char :: str_of_int (- z).
Proof.
  intros Hz. unfold str_of_int.
  destruct (Z.ltb_spec z 0); [|lia]. destruct (Z.ltb_spec (- z) 0); [lia|done].
Qed.

Lemma match_here_minus s : match_here (LABEL ++ "-"%char :: s) = None.
Proof.
  unfold match_here. rewrite startswith_app, drop_app_length. done.
Qed.

End more_summary_facts.

Section more_io_facts.

Lemma filter_report_missing_input input_path output_path w :
  files w !! input_path = None →
  filter_report input_path output_path w
  = ({| files := files w; read_only := read_only w; stdout := stdout w;
        io_log := io_log w ++ [OpenRead input_path] |},
     inl (FileNotFoundError input_path)).
Proof.
  intros Hin. unfold filter_report, mbind, io_bind, read_file. by rewrite Hin.
Qed.

Lemma filter_report_unwritable input_path output_path content w :
  files w !! input_path = Some content →
  output_path ∈ read_only w →
  filter_report input_path output_path w
  = ({| files := files w; read_only := read_only w;
        stdout := stdout w ++ [REMOVED_LINE (removed_count content)];
        io_log := io_log w ++ [OpenRead input_path; OpenWrite output_path] |},
     inl (PermissionError output_path)).
Proof.
  intros Hin Hout. unfold filter_report, mbind, io_bind, read_file. rewrite Hin.
  cbn -[update_summary Py.split Py.join run_loop REMOVED_LINE].
  unfold write_file.
  cbn -[update_summary Py.split Py.join run_loop REMOVED_LINE].
  rewrite decide_True by done. unfold log_event.
  cbn [files read_only stdout io_log]. by rewrite <- (assoc_L (++)).
Qed.

Lemma run_main_paths prog input_path output_path more w :
  run_main (prog :: input_path :: output_path :: more) w
  = (fst (filter_report input_path output_path w),
     exit_status (snd (filter_report input_path output_path w))).
Proof.
  unfold run_main, main. cbn [length Nat.ltb Nat.leb nth].
  by destruct (filter_report input_path output_path w).
Qed.

End more_io_facts.

(** * Further facts about base64url and the token *)

Section more_token_facts.
Local Open Scope N_scope.

Lemma b64_char_in_alphabet i : i < 64 → b64_char i ∈ B64URL_ALPHABET.
Proof.
  intros Hi. apply list_elem_of_In. unfold b64_char. apply nth_In.
  change (length B64URL_ALPHABET) with 64%nat. lia.
Qed.

Ltac sextet_lt :=
  first [ apply N.mod_lt; lia | apply N.Div0.div_lt_upper_bound; lia ].

(** The unpadded text of [b64url]: alphabet characters only, and as many as
    the octets need. *)
Lemma b64url_shape data :
  Forall (λ c, c ∈ B64URL_ALPHABET) (b64url data)
  ∧ length (b64url data) = ((4 * length data + 2) / 3)%nat.
Proof.
  unfold b64url, bytes_decode.
  induction data as [|a|a b|a b c r [IH1 IH2]] using bytes_ind3.
  - split; [constructor|done].
  - pose proof (octet_bound a) as Ha. cbn [urlsafe_b64encode].
    rewrite !rstrip_cons_ne by (apply b64_char_not_pad; sextet_lt).
    cbn [rstrip Ascii.eqb Bool.eqb]. split; [|done].
    repeat (apply Forall_cons_2; [apply b64_char_in_alphabet; sextet_lt|]).
    constructor.
  - pose proof (octet_bound a) as Ha. pose proof (octet_bound b) as Hb.
    cbn [urlsafe_b64encode].
    rewrite !rstrip_cons_ne by (apply b64_char_not_pad; sextet_lt).
    cbn [rstrip Ascii.eqb Bool.eqb]. split; [|done].
    repeat (apply Forall_cons_2; [apply b64_char_in_alphabet; sextet_lt|]).
    constructor.
  - pose proof (octet_bound a) as Ha. pose proof (octet_bound b) as Hb.
    pose proof (octet_bound c) as Hc. cbn [urlsafe_b64encode app].
    rewrite !rstrip_cons_ne by (apply b64_char_not_pad; sextet_lt).
    split.
    + repeat (apply Forall_cons_2; [apply b64_char_in_alphabet; sextet_lt|]).
      exact IH1.
    + cbn [length]. rewrite IH2.
      replace (4 * S (S (S (length r))) + 2)%nat
        with (4 * length r + 2 + 4 * 3)%nat by lia.
      rewrite Nat.div_add by done. lia.
Qed.

Lemma find_absent c (s : str) : c ∉ s → Py.find [c] s = None.
Proof.
  intros Hc. apply find_None_iff. intros j.
  destruct (drop j s) as [|a t] eqn:E; [done|]. cbn.
  destruct (Ascii.eqb_spec c a) as [->|]; [|done].
  destruct Hc. rewrite <- (take_drop j s), E.
  apply elem_of_app. right. apply elem_of_cons. by left.
Qed.

Lemma split_absent c (s : str) : c ∉ s → Py.split [c] s = [s].
Proof. intros Hc. by rewrite split_unfold, find_absent. Qed.

(** The three segments of the printed token. *)
Lemma token_segments hmac now :
  Py.split (lit ".") (gen_jwt hmac now)
  = [header; payload now; signature hmac now].
Proof.
  unfold gen_jwt. change (lit ".") with ["."%char].
  rewrite !split_single by apply b64url_no_dot.
  by rewrite split_absent by apply b64url_no_dot.
Qed.

End more_token_facts.

Section clock_facts.
Local Open Scope Z_scope.


Lemma int_of_float_monotone (x y : Q) :
  (x <= y)%Q → int_of_float x ≤ int_of_float y.
Proof.
  unfold Qle, int_of_float. destruct x as [a b], y as [c d]. cbn. intros Hle.
  rewrite <- (Z.quot_mul_cancel_r a (Z.pos b) (Z.pos d)) by lia.
  rewrite <- (Z.quot_mul_cancel_r c (Z.pos d) (Z.pos b)) by lia.
  rewrite (Z.mul_comm (Z.pos d) (Z.pos b)). apply Z.quot_le_mono; lia.
Qed.

End clock_facts.

Section payload_facts.

Lemma decode_payload_gen_jwt hmac now :
  decode_payload (gen_jwt hmac now) = Some (claims now).
Proof.
  unfold decode_payload. rewrite token_second_segment. cbn [mbind option_bind].
  unfold payload. rewrite b64url_round_trip. cbn [mbind option_bind].
  rewrite str_encode_ascii by apply json_dumps_ascii.
  rewrite ascii_text_ascii by apply json_dumps_ascii. cbn [mbind option_bind].
  apply json_loads_dumps.
Qed.

End payload_facts.

(** * The specification of [filter_report] *)

(** C1. Every retained block is free of the marker [#### Magic value], every
    discarded block contains it and is counted; the test is the substring test
    on the block's text, and the retained blocks keep their order. *)
Theorem filter_report_predicate (content : str) :
  let parts := parts_of content in
  let st := run_loop parts in
  kept_parts st = filter (λ p, Py.contains MARKER p = false) parts
  ∧ magic_value_count st
    = Z.of_nat (length (filter (λ p, Py.contains MARKER p = true) parts))
  ∧ (∀ b, b ∈ kept_parts st → ¬ substring MARKER b)
  ∧ (∀ b, b ∈ parts → b ∉ kept_parts st → substring MARKER b)
  ∧ sublist (kept_parts st) parts
  ∧ snd (filter_text content) = magic_value_count st.
Proof.
  intros parts st. subst st. rewrite run_loop_kept, run_loop_count.
  repeat split.
  - intros b [Hb _]%list_elem_of_filter. by apply not_contains_substring.
  - intros b Hb Hnot. apply contains_substring.
    destruct (Py.contains MARKER b) eqn:E; [done|].
    destruct Hnot. by apply list_elem_of_filter.
  - apply sublist_filter.
  - unfold filter_text. simpl. by rewrite run_loop_count.
Qed.

(** C2, as the code has it: when the matched digits are the decimal text of
    their own value (no leading zeros), the line at the position of the match
    now carries [C - removedCount]; the text before it is unchanged and the
    text after the new number does not start with a digit. *)
Theorem summary_count_rewritten (content : str) (i : nat) (digits : str) :
  re_search (rejoined content) = Some (i, digits) →
  str_of_int (int_of_str digits) = digits →
  let new_count := (int_of_str digits - removed_count content)%Z in
  ∃ tail,
    fst (filter_text content)
    = take i (rejoined content) ++ LABEL ++ str_of_int new_count ++ tail
    ∧ digit_run tail = [].
Proof.
  intros Hs Hcanon new_count.
  pose proof (find_summary_line _ _ _ Hs) as Hfind.
  exists (Py.replace (LABEL ++ digits) (LABEL ++ str_of_int new_count)
            (drop (i + length (LABEL ++ digits)) (rejoined content))).
  split.
  - unfold filter_text, update_summary. fold (parts_of content).
    fold (rejoined content) (removed_count content). rewrite Hs. cbn [fst].
    rewrite Hcanon. fold new_count.
    change (LABEL ++ digits)
      with ("-"%char :: (lit " **Issues Found:** " ++ digits)) in *.
    rewrite replace_unfold, Hfind. by rewrite <- !(assoc_L (++)).
  - apply re_search_Some in Hs as (_ & Hm & _).
    apply match_here_Some in Hm as (_ & Hd & _).
    change (LABEL ++ digits)
      with ("-"%char :: (lit " **Issues Found:** " ++ digits)).
    apply digit_run_replace; [done|done|].
    change ("-"%char :: (lit " **Issues Found:** " ++ digits))
      with (LABEL ++ digits).
    rewrite length_app, Nat.add_assoc, <- !drop_drop.
    rewrite Hd at 1. apply digit_run_after.
Qed.

Lemma summary_count_rewritten_witness :
  ∃ tail,
    fst (filter_text scenario_A)
    = take 7 (rejoined scenario_A) ++ LABEL ++ str_of_int (3 - 1) ++ tail
    ∧ digit_run tail = [].
Proof.
  apply (summary_count_rewritten scenario_A 7 (lit "3")); vm_compute; reflexivity.
Defined.

(** C2 as stated fails when the count is written with a leading zero: the
    summary line is found with value 3, one block is removed, and the output
    still reads 03. *)
Lemma summary_count_stale :
  re_search (rejoined leading_zero_report) = Some (0, lit "03")
  ∧ int_of_str (lit "03") = 3%Z
  ∧ filter_text leading_zero_report = (lit "- **Issues Found:** 03", 1%Z)
  ∧ (λ m, int_of_str (snd m)) <$> re_search (fst (filter_text leading_zero_report))
    = Some 3%Z
  ∧ (3 ≠ 3 - 1)%Z.
Proof. vm_compute. repeat split. discriminate. Qed.

(** C3 as stated fails: both copies of the line are rewritten. *)
Lemma later_occurrence_is_rewritten :
  fst (filter_text two_summaries_report)
  = lit "- **Issues Found:** 1" ++ nl :: lit "- **Issues Found:** 1"
  ∧ update_summary_first_only (rejoined two_summaries_report)
      (removed_count two_summaries_report)
    = lit "- **Issues Found:** 1" ++ nl :: lit "- **Issues Found:** 2"
  ∧ fst (filter_text two_summaries_report)
    ≠ update_summary_first_only (rejoined two_summaries_report)
        (removed_count two_summaries_report).
Proof. vm_compute. repeat split. discriminate. Qed.

(** C3, as the code has it: [str.replace] without a count rewrites every
    occurrence of the old line.  The rejoined text is the pieces between the
    occurrences joined by the old line, the output is the same pieces joined
    by the new line, and no piece contains the old line. *)
Theorem summary_line_replaced_everywhere (content : str) (i : nat) (digits : str) :
  re_search (rejoined content) = Some (i, digits) →
  let old := LABEL ++ str_of_int (int_of_str digits) in
  let new := LABEL ++ str_of_int (int_of_str digits - removed_count content) in
  let pieces := Py.split old (rejoined content) in
  rejoined content = Py.join old pieces
  ∧ fst (filter_text content) = Py.join new pieces
  ∧ Forall (λ q, ¬ substring old q) pieces.
Proof.
  intros Hs old new pieces. subst pieces. repeat split.
  - by rewrite join_split.
  - unfold filter_text, update_summary. fold (parts_of content).
    fold (rejoined content) (removed_count content). rewrite Hs. cbn [fst].
    by apply replace_join_split.
  - apply Forall_forall. intros q Hq. apply not_contains_substring.
    apply contains_find_None. by eapply split_no_sep.
Qed.

Lemma summary_line_replaced_everywhere_witness :
  fst (filter_text two_summaries_report)
  = Py.join (LABEL ++ str_of_int (2 - 1))
      (Py.split (LABEL ++ str_of_int 2) (rejoined two_summaries_report)).
Proof.
  apply (summary_line_replaced_everywhere two_summaries_report 0 (lit "2")).
  vm_compute. reflexivity.
Defined.

(** C4, as the code has it: the loop classifies every part of the split, the
    header part included, so retained and removed parts add up to all parts. *)
Theorem block_count_conservation (content : str) :
  let parts := parts_of content in
  let st := run_loop parts in
  (Z.of_nat (length (kept_parts st)) + magic_value_count st
   = Z.of_nat (length parts))%Z.
Proof.
  intros parts st. subst st. rewrite run_loop_kept, run_loop_count.
  induction parts as [|p parts IH]; [done|].
  rewrite !filter_cons. destruct (Py.contains MARKER p) eqn:E;
    repeat case_decide; try congruence; simpl length; lia.
Qed.

(** C4 as stated (retained + removed = parts - 1) fails on Scenario A of the
    specification: two parts are retained, one is removed, the split gives three. *)
Lemma block_count_minus_one_fails :
  let parts := parts_of scenario_A in
  let st := run_loop parts in
  (Z.of_nat (length (kept_parts st)) + magic_value_count st
   ≠ Z.of_nat (length parts) - 1)%Z.
Proof. vm_compute. discriminate. Qed.

(** C5. When no block contains the marker the output is the input, byte for
    byte, and nothing is counted as removed.  In general the rejoined text
    carries every retained block unchanged between separators, and splitting
    it again gives back exactly the retained blocks. *)
Theorem no_match_round_trip (content : str) :
  (Forall (λ p, Py.contains MARKER p = false) (parts_of content) →
   filter_text content = (content, 0%Z))
  ∧ (∀ l1 b l2,
       kept_parts (run_loop (parts_of content)) = l1 ++ b :: l2 →
       rejoined content
       = concat (map (λ x, x ++ SEP) l1) ++ b ++ concat (map (λ x, SEP ++ x) l2))
  ∧ (kept_parts (run_loop (parts_of content)) ≠ [] →
     Py.split SEP (rejoined content) = kept_parts (run_loop (parts_of content))).
Proof.
  split; [apply filter_text_fixed|]. split.
  - intros l1 b l2 H. unfold rejoined. rewrite H. apply join_middle.
  - intros H. apply split_join_SEP; [done|]. apply kept_parts_no_SEP.
Qed.

Lemma no_match_round_trip_witness :
  filter_text unmarked_report = (unmarked_report, 0%Z).
Proof.
  apply (proj1 (no_match_round_trip unmarked_report)).
  apply Forall_fold_right. vm_compute. tauto.
Defined.

(** C6. A second pass over the output of a first pass removes nothing and
    returns that output unchanged: on the text, and on the files when the
    second run reads what the first run wrote. *)
Theorem filter_report_idempotent (content : str) :
  filter_text (fst (filter_text content)) = (fst (filter_text content), 0%Z)
  ∧ ∀ w input_path output_path output_path2,
      files w !! input_path = Some content →
      output_path ∉ read_only w →
      output_path2 ∉ read_only w →
      ∃ w1 w2,
        filter_report input_path output_path w = (w1, inr ())
        ∧ filter_report output_path output_path2 w1 = (w2, inr ())
        ∧ files w2 !! output_path2 = files w1 !! output_path
        ∧ last (stdout w2) = Some (REMOVED_LINE 0).
Proof.
  assert (filter_text (fst (filter_text content))
          = (fst (filter_text content), 0%Z)) as Hpure.
  { apply filter_text_marker_free, filter_text_output_marker_free. }
  split; [done|]. intros w inp out out2 Hin Hout Hout2.
  eexists. eexists. split; [by apply filter_report_run|].
  split.
  - apply (filter_report_run _ _ (fst (filter_text content))); cbn [files read_only];
      [apply lookup_insert_eq|done].
  - cbn [files stdout]. rewrite Hpure. cbn [fst snd].
    by rewrite last_snoc, !lookup_insert_eq.
Qed.

Lemma filter_report_idempotent_witness :
  ∃ w1 w2,
    filter_report "report.md" "out.md" sample_world = (w1, inr ())
    ∧ filter_report "out.md" "again.md" w1 = (w2, inr ())
    ∧ files w2 !! "again.md"%string = files w1 !! "out.md"%string
    ∧ last (stdout w2) = Some (REMOVED_LINE 0).
Proof.
  apply (proj2 (filter_report_idempotent scenario_A)).
  - reflexivity.
  - simpl. apply not_elem_of_empty.
  - simpl. apply not_elem_of_empty.
Defined.

(** C7. Without a summary line in the input the rejoined text is written as it
    is, and the run ends normally whenever both files can be opened. *)
Theorem summary_absent_is_not_an_error (content : str) :
  re_search content = None →
  re_search (rejoined content) = None
  ∧ filter_text content = (rejoined content, removed_count content)
  ∧ ∀ w input_path output_path,
      files w !! input_path = Some content →
      output_path ∉ read_only w →
      ∃ w', filter_report input_path output_path w = (w', inr ())
            ∧ files w' !! output_path = Some (rejoined content).
Proof.
  intros H%re_search_rejoined.
  assert (filter_text content = (rejoined content, removed_count content)) as Hf.
  { unfold filter_text, update_summary. fold (parts_of content).
    fold (rejoined content). by rewrite H. }
  repeat split; [done..|].
  intros w inp out Hin Hout. eexists. split; [by apply filter_report_run|].
  cbn [files]. rewrite Hf. apply lookup_insert_eq.
Qed.

Lemma summary_absent_is_not_an_error_witness :
  filter_text no_summary_report
  = (lit "Header" ++ nl :: lit "---" ++ nl :: lit "OK block", 1%Z)
  ∧ ∃ w', filter_report "report.md" "out.md" (world_of no_summary_report)
          = (w', inr ())
          ∧ files w' !! "out.md"%string = Some (rejoined no_summary_report).
Proof.
  pose proof (summary_absent_is_not_an_error no_summary_report) as H.
  destruct H as (_ & H & Hio); [vm_compute; reflexivity|]. split.
  - rewrite H. vm_compute. reflexivity.
  - apply Hio; [reflexivity|]. simpl. apply not_elem_of_empty.
Defined.

(** C8. With fewer than two path arguments the program prints the usage line,
    exits with status 1 and opens no file.  With two path arguments whose
    files can be opened it writes the filtered text to the output path, prints
    the number of removed blocks and exits with status 0. *)
Theorem cli_exit_behaviour (argv : list string) (w : world) :
  (length argv < 3 →
   run_main argv w =
   ({| files := files w; read_only := read_only w;
       stdout := stdout w ++ [USAGE]; io_log := io_log w |}, 1%Z))
  ∧ (∀ prog input_path output_path content,
       argv = [prog; input_path; output_path] →
       files w !! input_path = Some content →
       output_path ∉ read_only w →
       run_main argv w =
       ({| files := <[output_path := fst (filter_text content)]> (files w);
           read_only := read_only w;
           stdout := stdout w ++ [REMOVED_LINE (removed_count content)];
           io_log := io_log w ++ [OpenRead input_path; OpenWrite output_path] |},
        0%Z)).
Proof.
  split.
  - intros Hlen. unfold run_main, main.
    apply Nat.ltb_lt in Hlen. by rewrite Hlen.
  - intros prog inp out content -> Hin Hout. unfold run_main, main.
    cbn [length Nat.ltb Nat.leb nth].
    by rewrite (filter_report_run _ _ content).
Qed.

Lemma cli_exit_behaviour_witness :
  run_main ["clean_report.py"; "report.md"]%string sample_world
  = ({| files := files sample_world; read_only := ∅; stdout := [USAGE];
        io_log := [] |}, 1%Z)
  ∧ run_main ["clean_report.py"; "report.md"; "out.md"]%string sample_world
    = ({| files := <["out.md"%string := fst (filter_text scenario_A)]>
                     (files sample_world);
          read_only := ∅;
          stdout := [REMOVED_LINE (removed_count scenario_A)];
          io_log := [OpenRead "report.md"; OpenWrite "out.md"] |}, 0%Z).
Proof.
  split.
  - apply (proj1 (cli_exit_behaviour _ sample_world)). simpl. lia.
  - eapply (proj2 (cli_exit_behaviour _ sample_world)); [reflexivity| |].
    + reflexivity.
    + simpl. apply not_elem_of_empty.
Defined.

(** C10. The predicate is applied to the first part too.  When the header part
    contains the marker it is dropped and counted like any other: the retained
    parts are those of the remaining parts, the rejoined text starts with the
    first of them, and the header's text (its summary line with it) is not
    written. *)
Theorem header_block_is_filtered (content h : str) (rest : list str) :
  parts_of content = h :: rest →
  substring MARKER h →
  kept_parts (run_loop (parts_of content)) = kept_parts (run_loop rest)
  ∧ (h ∉ kept_parts (run_loop (parts_of content)))
  ∧ removed_count content = (1 + magic_value_count (run_loop rest))%Z
  ∧ rejoined content = Py.join SEP (kept_parts (run_loop rest))
  ∧ (∀ b bs, kept_parts (run_loop rest) = b :: bs →
             Py.startswith b (rejoined content) = true)
  ∧ (re_search (rejoined content) = None →
     fst (filter_text content) = rejoined content)
  ∧ filter_text content
    = (update_summary (Py.join SEP (kept_parts (run_loop rest)))
         (1 + magic_value_count (run_loop rest)),
       (1 + magic_value_count (run_loop rest))%Z).
Proof.
  intros Hparts Hh%contains_substring.
  assert (re_search (rejoined content) = None →
          fst (filter_text content) = rejoined content) as Hout.
  { intros Hnone. unfold filter_text, update_summary. fold (parts_of content).
    fold (rejoined content). by rewrite Hnone. }
  assert (kept_parts (run_loop (h :: rest)) = kept_parts (run_loop rest)) as Hk.
  { rewrite !run_loop_kept, filter_cons. case_decide; [congruence|done]. }
  assert (magic_value_count (run_loop (h :: rest))
          = (1 + magic_value_count (run_loop rest))%Z) as Hn.
  { rewrite !run_loop_count, filter_cons. case_decide; [|done].
    cbn [length]. lia. }
  split; [by rewrite Hparts|]. split.
  { rewrite Hparts, run_loop_kept. intros [Hc _]%list_elem_of_filter. congruence. }
  split; [by unfold removed_count; rewrite Hparts|].
  split; [by unfold rejoined; rewrite Hparts, Hk|]. split.
  { unfold rejoined. rewrite Hparts, Hk. intros b bs ->.
    destruct bs as [|b' bs]; cbn [Py.join].
    - apply startswith_prefix. exists []. by rewrite app_nil_r.
    - apply startswith_app. }
  split; [done|].
  unfold filter_text. fold (parts_of content). by rewrite Hparts, Hk, Hn.
Qed.

Lemma header_block_is_filtered_witness :
  filter_text marked_header_report = (nl :: lit "OK block", 1%Z).
Proof.
  pose proof (header_block_is_filtered marked_header_report
    (lit "#### Magic value summary" ++ nl :: lit "- **Issues Found:** 3")
    [nl :: lit "OK block"]) as H.
  destruct H as (_ & _ & _ & _ & _ & _ & H).
  - vm_compute. reflexivity.
  - exists [], (lit " summary" ++ nl :: lit "- **Issues Found:** 3"). reflexivity.
  - rewrite H. vm_compute. reflexivity.
Defined.

(** * The specification of the token generator *)

(** C9. The second dot-separated segment of the printed token decodes
    (base64url, then JSON) to an object whose [aud] is [mcp-guard] and whose
    [exp] is the integer part of the generation time plus 3600, which lies
    after the generation time. *)
Theorem token_payload_claims (hmac : bytes → bytes → bytes) (now : Q) :
  ∃ obj,
    decode_payload (gen_jwt hmac now) = Some obj
    ∧ json_get (lit "aud") obj = Some (JStr (lit "mcp-guard"))
    ∧ json_get (lit "exp") obj = Some (JInt (int_of_float now + 3600))
    ∧ (now < inject_Z (int_of_float now + 3600))%Q.
Proof.
  exists (claims now). repeat split.
  - unfold decode_payload. rewrite token_second_segment. cbn [mbind option_bind].
    unfold payload. rewrite b64url_round_trip. cbn [mbind option_bind].
    rewrite str_encode_ascii by apply json_dumps_ascii.
    rewrite ascii_text_ascii by apply json_dumps_ascii. cbn [mbind option_bind].
    apply json_loads_dumps.
  - by apply int_of_float_bound.
Qed.

(** * Further properties of [filter_report] *)

(** X1. The written text never contains the marker, whatever the input. *)
Theorem output_has_no_marker (content : str) :
  Py.contains MARKER (fst (filter_text content)) = false
  ∧ ¬ substring MARKER (fst (filter_text content)).
Proof.
  assert (Py.contains MARKER (fst (filter_text content)) = false) as H.
  { apply contains_find_None, filter_text_output_marker_free. }
  split; [done|]. by apply not_contains_substring.
Qed.

(** X2. Something is removed exactly when the marker occurs somewhere in the
    input; and the input comes back unchanged exactly in the other case. *)
Theorem removal_iff_marker (content : str) :
  (removed_count content = 0%Z ↔ Py.contains MARKER content = false)
  ∧ (filter_text content = (content, 0%Z) ↔ Py.contains MARKER content = false).
Proof.
  assert (removed_count content = 0%Z → Py.contains MARKER content = false) as H1.
  { intros H%removed_count_zero. apply contains_find_None.
    rewrite <- (join_split SEP content). apply join_marker_free.
    eapply Forall_impl; [exact H|]. intros p Hp. by apply contains_find_None. }
  assert (Py.contains MARKER content = false → filter_text content = (content, 0%Z))
    as H2.
  { intros H%contains_find_None. by apply filter_text_marker_free. }
  assert (filter_text content = (content, 0%Z) → removed_count content = 0%Z) as H3.
  { intros H. apply (f_equal snd) in H. exact H. }
  split; split; auto.
Qed.

(** X3. The loop only takes text away: the rejoined text is shorter than the
    input by at least the 16 characters of the marker for every removed
    block. *)
Theorem rejoined_length (content : str) :
  (Z.of_nat (length (rejoined content)) + 16 * removed_count content
   ≤ Z.of_nat (length content))%Z.
Proof.
  unfold rejoined, removed_count. rewrite run_loop_kept, run_loop_count.
  rewrite <- (join_split SEP content) at 3. apply join_filter_length.
Qed.

(** X4. A text without any separator is a single block: it is written back
    unchanged, or, when it contains the marker, replaced by the empty text. *)
Theorem single_block (content : str) :
  Py.find SEP content = None →
  filter_text content
  = if Py.contains MARKER content then ([], 1%Z) else (content, 0%Z).
Proof.
  intros Hsep. assert (parts_of content = [content]) as Hparts.
  { unfold parts_of, SEP. rewrite split_unfold. fold SEP. by rewrite Hsep. }
  destruct (Py.contains MARKER content) eqn:E.
  - unfold filter_text. fold (parts_of content). rewrite Hparts.
    unfold run_loop. cbn [fold_left]. unfold loop_body. by rewrite E.
  - apply filter_text_fixed. rewrite Hparts. by repeat constructor.
Qed.

Lemma single_block_witness :
  filter_text (lit "Only #### Magic value here") = ([], 1%Z).
Proof.
  apply (single_block (lit "Only #### Magic value here")). reflexivity.
Defined.

(** X5. When every block contains the marker, the header included, the output
    is the empty text and every block is counted. *)
Theorem all_blocks_removed (content : str) :
  Forall (λ p, Py.contains MARKER p = true) (parts_of content) →
  filter_text content = ([], Z.of_nat (length (parts_of content))).
Proof.
  intros H. unfold filter_text. fold (parts_of content).
  assert (filter (λ p, Py.contains MARKER p = false) (parts_of content) = [])
    as Hkept.
  { induction H as [|p l Hp Hl IH]; [done|].
    rewrite filter_cons. case_decide; [congruence|done]. }
  assert (length (filter (λ p, Py.contains MARKER p = true) (parts_of content))
          = length (parts_of content)) as Hcount.
  { clear -H. induction H as [|p l Hp Hl IH]; [done|].
    rewrite filter_cons. case_decide; [|done]. cbn [length]. by rewrite IH. }
  rewrite run_loop_kept, run_loop_count, Hkept, Hcount. done.
Qed.

Lemma all_blocks_removed_witness : filter_text all_marked_report = ([], 2%Z).
Proof.
  apply (all_blocks_removed all_marked_report).
  apply Forall_fold_right. vm_compute. tauto.
Defined.

(** X6. The new count is not clamped at zero.  When more blocks are removed
    than the summary line counts, a negative number is written, and the line
    no longer matches the summary pattern. *)
Theorem negative_count_written (content : str) (i : nat) (digits : str) :
  re_search (rejoined content) = Some (i, digits) →
  str_of_int (int_of_str digits) = digits →
  (int_of_str digits < removed_count content)%Z →
  ∃ tail,
    fst (filter_text content)
    = take i (rejoined content) ++ LABEL
      ++ "-"%char :: str_of_int (removed_count content - int_of_str digits)
      ++ tail
    ∧ match_here (drop i (fst (filter_text content))) = None.
Proof.
  intros Hs Hcanon Hlt.
  pose proof (find_summary_line _ _ _ Hs) as Hfind.
  apply re_search_Some in Hs as Hs'. destruct Hs' as (Hi & _ & _).
  eexists. split.
  - unfold filter_text, update_summary. fold (parts_of content).
    fold (rejoined content) (removed_count content). rewrite Hs. cbn [fst].
    rewrite Hcanon, str_of_int_negative by lia.
    replace (- (int_of_str digits - removed_count content))%Z
      with (removed_count content - int_of_str digits)%Z by lia.
    change (LABEL ++ digits)
      with ("-"%char :: (lit " **Issues Found:** " ++ digits)) in *.
    rewrite replace_unfold, Hfind.
    rewrite <- !(assoc_L (++)). cbn [app]. reflexivity.
  - unfold filter_text, update_summary. fold (parts_of content).
    fold (rejoined content) (removed_count content). rewrite Hs. cbn [fst].
    rewrite Hcanon, str_of_int_negative by lia.
    change (LABEL ++ digits)
      with ("-"%char :: (lit " **Issues Found:** " ++ digits)) in *.
    rewrite replace_unfold, Hfind.
    rewrite drop_app_length' by (rewrite length_take; lia).
    rewrite <- (assoc_L (++)). apply match_here_minus.
Qed.

Lemma negative_count_written_witness :
  ∃ tail,
    fst (filter_text zero_count_report)
    = take 0 (rejoined zero_count_report) ++ LABEL
      ++ "-"%char :: str_of_int (removed_count zero_count_report
                                 - int_of_str (lit "0")) ++ tail
    ∧ match_here (drop 0 (fst (filter_text zero_count_report))) = None.
Proof.
  apply (negative_count_written zero_count_report 0 (lit "0"));
    vm_compute; reflexivity.
Defined.

(** * Further properties of the runs *)

(** X7. When the input file cannot be read the run stops there: nothing is
    printed, the output path is not opened, no file changes, and the process
    exits with status 1. *)
Theorem missing_input_stops (w : world) (prog input_path output_path : string) :
  files w !! input_path = None →
  run_main [prog; input_path; output_path] w
  = ({| files := files w; read_only := read_only w; stdout := stdout w;
        io_log := io_log w ++ [OpenRead input_path] |}, 1%Z).
Proof.
  intros Hin. rewrite run_main_paths.
  by rewrite (filter_report_missing_input _ _ _ Hin).
Qed.

Lemma missing_input_stops_witness :
  run_main ["clean_report.py"; "absent.md"; "out.md"]%string sample_world
  = ({| files := files sample_world; read_only := ∅; stdout := [];
        io_log := [OpenRead "absent.md"] |}, 1%Z).
Proof.
  apply (missing_input_stops sample_world "clean_report.py" "absent.md" "out.md").
  reflexivity.
Defined.

(** X8. When the output path cannot be opened for writing, the count line has
    already been printed; no file changes and the process exits with
    status 1. *)
Theorem unwritable_output_after_print
    (w : world) (prog input_path output_path : string) (content : str) :
  files w !! input_path = Some content →
  output_path ∈ read_only w →
  run_main [prog; input_path; output_path] w
  = ({| files := files w; read_only := read_only w;
        stdout := stdout w ++ [REMOVED_LINE (removed_count content)];
        io_log := io_log w ++ [OpenRead input_path; OpenWrite output_path] |},
     1%Z).
Proof.
  intros Hin Hout. rewrite run_main_paths.
  by rewrite (filter_report_unwritable _ _ _ _ Hin Hout).
Qed.

Lemma unwritable_output_after_print_witness :
  run_main ["clean_report.py"; "report.md"; "out.md"]%string locked_world
  = ({| files := files locked_world; read_only := read_only locked_world;
        stdout := [REMOVED_LINE (removed_count scenario_A)];
        io_log := [OpenRead "report.md"; OpenWrite "out.md"] |}, 1%Z).
Proof.
  apply (unwritable_output_after_print locked_world "clean_report.py"
           "report.md" "out.md" scenario_A).
  - reflexivity.
  - simpl. by apply elem_of_singleton.
Defined.

(** X9. A run touches no file but the one at the output path, whatever
    happens; it never changes which paths are writable, and it only adds to
    what has been printed. *)
Theorem other_files_untouched (w : world) (input_path output_path path : string) :
  path ≠ output_path →
  let w' := fst (filter_report input_path output_path w) in
  files w' !! path = files w !! path
  ∧ read_only w' = read_only w
  ∧ stdout w `prefix_of` stdout w'.
Proof.
  intros Hne. unfold filter_report, mbind, io_bind, read_file.
  destruct (files w !! input_path) as [content|]; [|done].
  cbn -[update_summary Py.split Py.join run_loop REMOVED_LINE].
  unfold write_file.
  cbn -[update_summary Py.split Py.join run_loop REMOVED_LINE].
  case_decide; cbn [fst files read_only stdout].
  - repeat split. by eexists.
  - rewrite lookup_insert_ne by done. repeat split. by eexists.
Qed.

Lemma other_files_untouched_witness :
  files (fst (filter_report "report.md" "out.md" sample_world)) !! "report.md"%string
  = files sample_world !! "report.md"%string.
Proof.
  apply (other_files_untouched sample_world "report.md" "out.md" "report.md").
  discriminate.
Defined.

(** X10. The exit status is 0 exactly when two paths are given, the first can
    be read and the second can be written; in every other case it is 1. *)
Theorem exit_status_zero_iff (argv : list string) (w : world) :
  (snd (run_main argv w) = 0%Z ∨ snd (run_main argv w) = 1%Z)
  ∧ (snd (run_main argv w) = 0%Z ↔
     ∃ prog input_path output_path more,
       argv = prog :: input_path :: output_path :: more
       ∧ is_Some (files w !! input_path)
       ∧ output_path ∉ read_only w).
Proof.
  destruct argv as [|prog [|inp [|out more]]].
  1-3: split; [by right|]; split; [done|]; by intros (? & ? & ? & ? & [=] & _).
  rewrite run_main_paths. cbn [snd].
  destruct (files w !! inp) as [content|] eqn:Hin.
  - destruct (decide (out ∈ read_only w)) as [Hro|Hrw].
    + rewrite (filter_report_unwritable _ _ _ _ Hin Hro). cbn [snd exit_status].
      split; [by right|]. split; [done|].
      intros (? & ? & ? & ? & [= <- <- <- <-] & _ & Hw). done.
    + rewrite (filter_report_run _ _ _ _ Hin Hrw). cbn [snd exit_status].
      split; [by left|]. split; [|done]. intros _.
      exists prog, inp, out, more. by rewrite Hin.
  - rewrite (filter_report_missing_input _ _ _ Hin). cbn [snd exit_status].
    split; [by right|]. split; [done|].
    intros (? & ? & ? & ? & [= <- <- <- <-] & [? Hs] & _). congruence.
Qed.

(** * Further properties of the token generator *)

(** X11. [b64url] loses nothing: its text decodes back to the octets. *)
Theorem b64url_decodes_back (data : bytes) :
  b64url_decode (b64url data) = Some data.
Proof. apply b64url_round_trip. Qed.

(** X12. The text of [b64url] uses the URL-safe alphabet only, carries no
    [=] padding, and has ceil(4n/3) characters for n octets. *)
Theorem b64url_text_shape (data : bytes) :
  Forall (λ c, c ∈ B64URL_ALPHABET) (b64url data)
  ∧ ("="%char ∉ b64url data)
  ∧ length (b64url data) = (4 * length data + 2) / 3.
Proof.
  destruct (b64url_shape data) as [Hall Hlen]. repeat split; [done| |done].
  intros Hpad. rewrite Forall_forall in Hall. apply Hall in Hpad.
  revert Hpad. unfold B64URL_ALPHABET. solve_notin.
Qed.

(** X13. The printed token has exactly three dot-separated segments: header,
    payload and signature, each written in the URL-safe alphabet. *)
Theorem token_has_three_segments (hmac : bytes → bytes → bytes) (now : Q) :
  Py.split (lit ".") (gen_jwt hmac now)
  = [header; payload now; signature hmac now]
  ∧ Forall (Forall (λ c, c ∈ B64URL_ALPHABET))
           (Py.split (lit ".") (gen_jwt hmac now)).
Proof.
  rewrite token_segments. split; [done|].
  repeat (apply Forall_cons_2; [apply b64url_shape|]). constructor.
Qed.

(** X14. The signature segment is the MAC, under the fixed secret, of the
    first two segments joined by a dot: what a verifier recomputes. *)
Theorem token_signature_covers_segments
    (hmac : bytes → bytes → bytes) (now : Q) :
  ∃ h p s,
    Py.split (lit ".") (gen_jwt hmac now) = [h; p; s]
    ∧ b64url_decode s
      = Some (hmac (str_encode secret) (str_encode (h ++ "."%char :: p))).
Proof.
  exists header, (payload now), (signature hmac now).
  split; [apply token_segments|]. apply b64url_round_trip.
Qed.

(** X15. The first segment of every token decodes to the header object:
    algorithm HS256, type JWT. *)
Theorem token_header_decodes (hmac : bytes → bytes → bytes) (now : Q) :
  decode_segment 0 (gen_jwt hmac now)
  = Some [(lit "alg", JStr (lit "HS256")); (lit "typ", JStr (lit "JWT"))].
Proof.
  unfold decode_segment. rewrite token_segments. cbn [lookup list_lookup mbind option_bind].
  vm_compute. reflexivity.
Qed.

(** X16. The payload segment decodes to exactly the five claims of the
    script, in the order written. *)
Theorem token_payload_decodes (hmac : bytes → bytes → bytes) (now : Q) :
  decode_payload (gen_jwt hmac now)
  = Some [(lit "sub", JStr (lit "jwt-user-123"));
          (lit "scope", JStr (lit "read:files"));
          (lit "iss", JStr (lit "https://test.mcp-guard.io"));
          (lit "aud", JStr (lit "mcp-guard"));
          (lit "exp", JInt (int_of_float now + 3600))].
Proof. apply decode_payload_gen_jwt. Qed.



(** X18. A token generated later never expires earlier. *)
Theorem token_expiry_monotone (hmac : bytes → bytes → bytes) (now1 now2 : Q) :
  (now1 <= now2)%Q →
  ∃ e1 e2,
    decode_payload (gen_jwt hmac now1) ≫= json_get (lit "exp") = Some (JInt e1)
    ∧ decode_payload (gen_jwt hmac now2) ≫= json_get (lit "exp") = Some (JInt e2)
    ∧ (e1 ≤ e2)%Z.
Proof.
  intros Hle. exists (int_of_float now1 + 3600)%Z, (int_of_float now2 + 3600)%Z.
  rewrite !decode_payload_gen_jwt. repeat split.
  apply int_of_float_monotone in Hle. lia.
Qed.

Lemma token_expiry_monotone_witness :
  ∃ e1 e2,
    decode_payload (gen_jwt (λ _ _, []) 10) ≫= json_get (lit "exp")
    = Some (JInt e1)
    ∧ decode_payload (gen_jwt (λ _ _, []) (21 # 2)) ≫= json_get (lit "exp")
      = Some (JInt e2)
    ∧ (e1 ≤ e2)%Z.
Proof.
  apply (token_expiry_monotone (λ _ _, []) 10 (21 # 2)). unfold Qle. simpl. lia.
Defined.

(** X19. The token depends on the clock only through its whole second: two
    runs print the same token exactly when they read the same second. *)
Theorem token_same_second (hmac : bytes → bytes → bytes) (now1 now2 : Q) :
  gen_jwt hmac now1 = gen_jwt hmac now2 ↔ int_of_float now1 = int_of_float now2.
Proof.
  split.
  - intros H. apply (f_equal decode_payload) in H.
    rewrite !decode_payload_gen_jwt in H. unfold claims in H.
    injection H as H. lia.
  - intros H. unfold gen_jwt, signature, payload, claims. by rewrite H.
Qed.
